(** * The blog data model: posts, tags, comments and their query helpers

    A shallow embedding of [blog/models.py].  The module declares three
    models ([Post], [Tag], [Comment]) on top of an object-relational
    layer, two query-set classes with a handful of helpers, URL hooks and
    one validation hook.  The database is a record of tables; a model
    instance living in Python memory is a record of its row plus the
    attributes that queries and helpers attach to it; query sets are lazy
    descriptions evaluated against the database. *)

From Stdlib Require Import ZArith NArith List String Ascii Bool Lia Sorted Permutation.
From stdpp Require Import base option list gmap strings.

Local Open Scope Z_scope.

(** ** Python strings

    A [str] is a sequence of Unicode code points, and [len] counts code
    points.  The title of a tag, which the module lowercases and which a
    field declaration bounds in length, is modelled as such.  The texts
    that the module only stores, compares and concatenates (user names,
    slugs, post titles, names of routes and of attributes) are kept as
    [string]s.  A [string] of ASCII characters denotes the [str] of the
    same characters. *)
Definition str := list N.

Definition str_of_ascii (s : string) : str := map N_of_ascii (list_ascii_of_string s).
Coercion str_of_ascii : string >-> str.

#[global] Instance str_eq_dec : EqDecision str := _.

(** Code-point order, which is also the order of the UTF-8 encodings
    that a binary collation compares. *)
Fixpoint str_leb (a b : str) : bool :=
  match a, b with
  | [], _ => true
  | _ :: _, [] => false
  | x :: a', y :: b' =>
      if (x <? y)%N then true
      else if (x =? y)%N then str_leb a' b'
      else false
  end.

(** [str.lower()] maps every character through the full lowercase
    mapping of the Unicode character database, which gives one to three
    characters, except for the capital sigma, which becomes the final or
    the plain small sigma according to the characters around it.  The
    database is data of the interpreter, not of this module, so it is a
    parameter of the model: the lowercase mapping and the two character
    properties that the sigma rule reads. *)
Record UnicodeData := mkUnicodeData {
  to_lower_full : N -> list N;
  is_cased : N -> bool;
  is_case_ignorable : N -> bool
}.

Definition capital_sigma : N := 0x3A3.
Definition small_sigma : N := 0x3C3.
Definition small_final_sigma : N := 0x3C2.

Definition ascii_lower (c : N) : N :=
  if ((65 <=? c) && (c <=? 90))%N then (c + 32)%N else c.

Section Lower.
Variable unicode : UnicodeData.

(** The first character of [s] that is not case-ignorable. *)
Fixpoint skip_case_ignorable (s : str) : option N :=
  match s with
  | [] => None
  | c :: r => if is_case_ignorable unicode c then skip_case_ignorable r else Some c
  end.

(** A capital sigma is final when a cased letter stands before it and
    none after it, case-ignorable characters aside.  [before] holds the
    characters in front of the sigma, the nearest first. *)
Definition final_sigma (before after : str) : bool :=
  match skip_case_ignorable before with
  | Some c =>
      is_cased unicode c
      && match skip_case_ignorable after with
         | Some d => negb (is_cased unicode d)
         | None => true
         end
  | None => false
  end.

Definition lower_char (before : str) (c : N) (after : str) : list N :=
  if (c =? capital_sigma)%N
  then [if final_sigma before after then small_final_sigma else small_sigma]
  else to_lower_full unicode c.

Fixpoint lower_from (before : str) (s : str) : str :=
  match s with
  | [] => []
  | c :: after => lower_char before c after ++ lower_from (c :: before) after
  end.

Definition str_lower (s : str) : str := lower_from [] s.

(** A character that [str.lower()] leaves as it is, wherever it stands. *)
Definition is_lower (c : N) : Prop :=
  c <> capital_sigma /\ to_lower_full unicode c = [c].

(** What the proofs use of the database: the lowercase mapping yields
    characters that it maps to themselves and never a capital sigma, the
    two small sigmas are mapped to themselves, and on the ASCII range the
    mapping sends [A]..[Z] to [a]..[z] and keeps every other character;
    no character is mapped to nothing. *)
Record unicode_data_ok : Prop := mk_unicode_data_ok {
  lower_is_lower : forall c d : N, In d (to_lower_full unicode c) -> is_lower d;
  small_sigma_is_lower : is_lower small_sigma;
  small_final_sigma_is_lower : is_lower small_final_sigma;
  lower_not_empty : forall c : N, to_lower_full unicode c <> [];
  lower_of_ascii : forall c : N, (c < 128)%N -> to_lower_full unicode c = [ascii_lower c]
}.
End Lower.

(** ** Rows of the tables *)

Record User := mkUser {
  user_id : Z;
  username : string;
  is_staff : bool
}.

(** [Post]: [title], [text], [slug], [image], [published_at] and the
    foreign key [author]; [likes] and [tags] are many-to-many and live in
    their own join tables. *)
Record Post := mkPost {
  post_id : Z;
  post_title : string;
  post_text : string;
  post_slug : string;
  post_image : string;
  post_published_at : Z;
  post_author_id : Z
}.

Record Tag := mkTag {
  tag_id : Z;
  tag_title : str
}.

Record Comment := mkComment {
  comment_id : Z;
  comment_post_id : Z;
  comment_author_id : Z;
  comment_text : string;
  comment_published_at : Z
}.

(** The database.  [post_likes] is the join table of [Post.likes]
    (pairs post id, user id) and [post_tags] the one of [Post.tags]
    (pairs post id, tag id). *)
Record DB := mkDB {
  users : list User;
  posts : list Post;
  tags : list Tag;
  comments : list Comment;
  post_likes : list (Z * Z);
  post_tags : list (Z * Z)
}.

Definition empty_db : DB := mkDB [] [] [] [] [] [].

(** ** Exceptions *)

Inductive Exn :=
| KeyError (key : Z)
| AttributeError (attr : string)
| NoReverseMatch (viewname : string)
| ValidationError (field : string)
| ProtectedError.

Inductive Outcome (A : Type) :=
| Return (a : A)
| Raise (e : Exn).
Arguments Return {A} a.
Arguments Raise {A} e.

Definition bind {A B} (m : Outcome A) (k : A -> Outcome B) : Outcome B :=
  match m with
  | Return a => k a
  | Raise e => Raise e
  end.

Notation "x <- m ;; k" := (bind m (fun x => k))
  (at level 100, m at next level, right associativity).

(** ** Model instances in memory

    A [Tag] object: its fields, plus the attribute [posts_count] that
    [annotate(posts_count=Count('posts'))] attaches.  [t_id] is [None]
    until the instance has been saved. *)
Record TagObj := mkTagObj {
  t_id : option Z;
  t_title : str;
  t_posts_count : option nat
}.

Definition Tag_new (title : str) : TagObj := mkTagObj None title None.

Definition Tag_from_row (r : Tag) : TagObj :=
  mkTagObj (Some (tag_id r)) (tag_title r) None.

(** A [Post] object loaded from the database: its row, the attributes
    attached by [annotate] or by [fetch_with_comments_count], the author
    cached by [select_related] and the tags cached by
    [prefetch_related]. *)
Record PostObj := mkPostObj {
  p_row : Post;
  p_likes_count : option nat;
  p_comments_count : option nat;
  p_author : option User;
  p_tags : option (list TagObj)
}.

Definition Post_from_row (r : Post) : PostObj :=
  mkPostObj r None None None None.

Definition p_id (o : PostObj) : Z := post_id (p_row o).

(** [post.comments_count = n]: every other attribute is kept. *)
Definition set_comments_count (n : nat) (o : PostObj) : PostObj :=
  mkPostObj (p_row o) (p_likes_count o) (Some n) (p_author o) (p_tags o).

(** ** [Tag]: validation and saving *)

(** [title = CharField(max_length=20, unique=True)]; [blank] keeps its
    default [False].  The length that [max_length] bounds is the number
    of characters. *)
Definition Tag_title_max_length : nat := 20.

Definition Tag_clean_fields (t : TagObj) : Outcome unit :=
  let n := length (t_title t) in
  if (n =? 0)%nat then Raise (ValidationError "title")
  else if (Tag_title_max_length <? n)%nat then Raise (ValidationError "title")
  else Return tt.

Definition same_pk (i : option Z) (r : Tag) : bool :=
  match i with
  | Some k => tag_id r =? k
  | None => false
  end.

Definition Tag_validate_unique (db : DB) (t : TagObj) : Outcome unit :=
  if existsb (fun r => bool_decide (tag_title r = t_title t) && negb (same_pk (t_id t) r))
       (tags db)
  then Raise (ValidationError "title")
  else Return tt.

Definition next_tag_id (db : DB) : Z :=
  fold_right Z.max 0 (map tag_id (tags db)) + 1.

Definition with_tags (db : DB) (ts : list Tag) : DB :=
  mkDB (users db) (posts db) ts (comments db) (post_likes db) (post_tags db).

(** [save]: an instance without a primary key is inserted under the next
    id, one with a primary key replaces its row. *)
Definition Tag_save (db : DB) (t : TagObj) : DB * TagObj :=
  match t_id t with
  | None =>
      let k := next_tag_id db in
      (with_tags db (tags db ++ [mkTag k (t_title t)]),
       mkTagObj (Some k) (t_title t) (t_posts_count t))
  | Some k =>
      (with_tags db
         (List.filter (fun r => negb (tag_id r =? k)) (tags db) ++ [mkTag k (t_title t)]),
       t)
  end.

(** [Tag.objects.get(id=k)], as an option. *)
Definition Tag_get (db : DB) (k : Z) : option TagObj :=
  Tag_from_row <$> List.find (fun r => tag_id r =? k) (tags db).

Section TagValidation.
Variable unicode : UnicodeData.

(** [Tag.clean]: [self.title = self.title.lower()]. *)
Definition Tag_clean (t : TagObj) : TagObj :=
  mkTagObj (t_id t) (str_lower unicode (t_title t)) (t_posts_count t).

(** [full_clean] runs [clean_fields], then the [clean] hook (also when a
    field was rejected), then [validate_unique] on the cleaned instance.
    The instance is mutated by [clean] whatever the verdict, so the
    cleaned instance is returned next to the verdict. *)
Definition Tag_full_clean (db : DB) (t : TagObj) : TagObj * Outcome unit :=
  let fields := Tag_clean_fields t in
  let t' := Tag_clean t in
  (t', _ <- fields ;; Tag_validate_unique db t').

(** Creating a tag through validation, as a model form does: build the
    instance, [full_clean] it, and [save] it when validation passed. *)
Definition Tag_create_validated (db : DB) (title : str) : Outcome (DB * TagObj) :=
  let '(t, verdict) := Tag_full_clean db (Tag_new title) in
  _ <- verdict ;; Return (Tag_save db t).
End TagValidation.

(** ** Deleting a post

    [Comment.post = ForeignKey('Post', on_delete=models.CASCADE)]: the
    handler named in the field declaration decides what happens to the
    rows that reference a deleted post. *)
Inductive OnDelete := CASCADE | PROTECT | DO_NOTHING.

Definition Comment_post_on_delete : OnDelete := CASCADE.

(** The rows left in a referencing table after the handler has run. *)
Definition apply_on_delete {A} (h : OnDelete) (refers : A -> bool) (rows : list A)
  : Outcome (list A) :=
  match h with
  | CASCADE => Return (List.filter (fun r => negb (refers r)) rows)
  | PROTECT => if existsb refers rows then Raise ProtectedError else Return rows
  | DO_NOTHING => Return rows
  end.

(** [post.delete()]: the rows of the two join tables go with the post,
    the comments are handled by [Comment_post_on_delete]. *)
Definition Post_delete (db : DB) (pid : Z) : Outcome DB :=
  cs <- apply_on_delete Comment_post_on_delete
          (fun c => comment_post_id c =? pid) (comments db) ;;
  Return (mkDB (users db)
            (List.filter (fun r => negb (post_id r =? pid)) (posts db))
            (tags db)
            cs
            (List.filter (fun '(p, _) => negb (p =? pid)) (post_likes db))
            (List.filter (fun '(p, _) => negb (p =? pid)) (post_tags db))).

(** ** URL reversing

    [reverse(viewname, args=...)] looks the route up by name and fills
    its parameters from the positional arguments.  The URL configuration
    is not part of this module, so it is an argument of the model. *)
Inductive Converter := SlugConv | StrConv.

Inductive Segment :=
| Lit (s : string)
| Param (name : string) (conv : Converter).

Record Route := mkRoute {
  route_name : string;
  route_pattern : list Segment
}.

Definition is_slug_char (c : ascii) : bool :=
  let n := nat_of_ascii c in
  ((48 <=? n) && (n <=? 57) || (65 <=? n) && (n <=? 90)
   || (97 <=? n) && (n <=? 122) || (n =? 45) || (n =? 95))%nat.

Fixpoint string_forallb (f : ascii -> bool) (s : string) : bool :=
  match s with
  | EmptyString => true
  | String c r => f c && string_forallb f r
  end.

(** [slug] is [[-a-zA-Z0-9_]+], [str] is [[^/]+]. *)
Definition converter_accepts (conv : Converter) (v : string) : bool :=
  negb (String.length v =? 0)%nat &&
  match conv with
  | SlugConv => string_forallb is_slug_char v
  | StrConv => string_forallb (fun c => negb (nat_of_ascii c =? 47)%nat) v
  end.

(** Positional substitution: as many arguments as parameters, each one
    accepted by the parameter's converter. *)
Fixpoint fill (pat : list Segment) (args : list string) : option string :=
  match pat with
  | [] => match args with [] => Some EmptyString | _ :: _ => None end
  | Lit s :: pat' => String.append s <$> fill pat' args
  | Param _ conv :: pat' =>
      match args with
      | [] => None
      | a :: args' =>
          if converter_accepts conv a
          then String.append a <$> fill pat' args'
          else None
      end
  end.

(** Python values, as far as attribute lookup and the [args] parameter
    need them: [None], integers, strings, and what a class provides
    (methods, managers, properties). *)
Inductive PyVal :=
| VNone
| VInt (z : Z)
| VStr (s : str)
| VBound (name : string).

(** The value handed to the [args] parameter.  The source passes a dict
    display with a string key; a caller may as well pass a list or a
    tuple of strings. *)
Inductive PyArgs :=
| ArgsSeq (items : list string)
| ArgsDict (items : list (string * PyVal)).

(** [reverse] ends in [resolver._reverse_with_prefix(view, prefix, *args,
    **kwargs)]: the value of [args] is unpacked with [*], which iterates
    it.  Iterating a sequence yields its items; iterating a dict yields
    its keys. *)
Definition star_unpack (a : PyArgs) : list string :=
  match a with
  | ArgsSeq items => items
  | ArgsDict items => map fst items
  end.

(** Candidates of one name are tried from the last declared to the
    first. *)
Fixpoint first_fill (routes : list Route) (viewname : string) (args : list string)
  : option string :=
  match routes with
  | [] => None
  | r :: rest =>
      if String.eqb (route_name r) viewname
      then match fill (route_pattern r) args with
           | Some u => Some u
           | None => first_fill rest viewname args
           end
      else first_fill rest viewname args
  end.

Definition reverse (urlconf : list Route) (viewname : string) (args : PyArgs)
  : Outcome string :=
  match first_fill (rev urlconf) viewname (star_unpack args) with
  | Some u => Return (String.append "/" u)
  | None => Raise (NoReverseMatch viewname)
  end.

(** [Post.get_absolute_url]:
    [return reverse('post_detail', args={'slug': self.slug})].  A slug
    is made of ASCII letters, digits, hyphens and underscores. *)
Definition Post_get_absolute_url (urlconf : list Route) (p : PostObj) : Outcome string :=
  reverse urlconf "post_detail" (ArgsDict [("slug", VStr (post_slug (p_row p)))]).

(** Attribute lookup on a [Tag] instance: the instance attributes first
    (the fields [id] and [title], and [posts_count] when the instance was
    annotated), then what the class provides ([pk], the manager, the
    reverse accessor [posts] of [Post.tags] and the methods). *)
Definition Tag_class_attrs : list string :=
  ["pk"; "objects"; "posts"; "clean"; "get_absolute_url"; "save"; "delete";
   "full_clean"; "clean_fields"; "validate_unique"; "__str__"].

Definition Tag_getattr (t : TagObj) (name : string) : option PyVal :=
  if String.eqb name "id" then Some (from_option VInt VNone (t_id t))
  else if String.eqb name "title" then Some (VStr (t_title t))
  else if String.eqb name "posts_count" then VInt ∘ Z.of_nat <$> t_posts_count t
  else if String.eqb name "pk" then Some (from_option VInt VNone (t_id t))
  else if existsb (String.eqb name) Tag_class_attrs then Some (VBound name)
  else None.

(** [Tag.get_absolute_url]:
    [return reverse('tag_filter', args={'tag_title': self.slug})].  The
    dict display is evaluated before the call, so [self.slug] is looked
    up first. *)
Definition Tag_get_absolute_url (urlconf : list Route) (t : TagObj) : Outcome string :=
  match Tag_getattr t "slug" with
  | None => Raise (AttributeError "slug")
  | Some v => reverse urlconf "tag_filter" (ArgsDict [("tag_title", v)])
  end.

(** ** The relational core of a query

    What the object-relational layer compiles a query set to, as far as
    this module uses it: a base table, joins over multi-valued relations
    and [COUNT] aggregates grouped by the base row. *)
Section Relational.
Context {Rel : Type} `{EqDecision Rel}.

(** A join over a multi-valued relation.  [join_in = None] is the
    [LEFT OUTER JOIN] that an aggregate adds; [join_in = Some ids] is
    the [INNER JOIN] of a filter across the relation, keeping the
    related rows whose key is one of [ids]. *)
Record Join := mkJoin {
  join_rel : Rel;
  join_in : option (list Z)
}.

(** [related rel k]: the keys related to base row [k] through [rel]. *)
Variable related : Rel -> Z -> list Z.

(** The joined column, for one base row.  An outer join with nothing
    to join yields one row holding [NULL]. *)
Definition join_column (k : Z) (j : Join) : list (option Z) :=
  match join_in j with
  | Some ids =>
      map Some (List.filter (fun x => existsb (Z.eqb x) ids) (related (join_rel j) k))
  | None =>
      match related (join_rel j) k with
      | [] => [None]
      | l => map Some l
      end
  end.

(** All joined rows of one base row: the product of its columns. *)
Fixpoint join_rows (cols : list (list (option Z))) : list (list (option Z)) :=
  match cols with
  | [] => [[]]
  | c :: cs => flat_map (fun v => map (cons v) (join_rows cs)) c
  end.

Definition rows_of (joins : list Join) (k : Z) : list (list (option Z)) :=
  join_rows (map (join_column k) joins).

(** An aggregate over [rel] reads the first join on [rel]: an
    annotation reuses the join that an earlier filter across the same
    relation made, so a filter that precedes an annotation constrains
    what the annotation counts.  Only when there is no such join does
    the annotation add its own outer join. *)
Fixpoint join_index (rel : Rel) (joins : list Join) : option nat :=
  match joins with
  | [] => None
  | j :: js => if decide (join_rel j = rel) then Some 0%nat
               else S <$> join_index rel js
  end.

Definition add_join (rel : Rel) (joins : list Join) : list Join :=
  match join_index rel joins with
  | Some _ => joins
  | None => joins ++ [mkJoin rel None]
  end.

(** The non-[NULL] values of column [i] over the rows of a group. *)
Definition column_values (i : nat) (rows : list (list (option Z))) : list Z :=
  omap (fun row => mjoin (row !! i)) rows.

(** [COUNT(col)] and [COUNT(DISTINCT col)] over the rows of a group. *)
Definition count_column (distinct : bool) (i : nat) (rows : list (list (option Z))) : nat :=
  if distinct then length (remove_dups (column_values i rows))
  else length (column_values i rows).

Definition Count (rel : Rel) (distinct : bool) (joins : list Join)
           (rows : list (list (option Z))) : nat :=
  match join_index rel joins with
  | Some i => count_column distinct i rows
  | None => 0%nat
  end.
End Relational.

Arguments Join Rel : clear implicits.
Arguments mkJoin {Rel} _ _.

(** [order_by]: a stable insertion sort; [before x y] says that [x] may
    stand in front of [y].  Rows that compare equal keep the order of the
    table, which stands for the order the database happens to return. *)
Section OrderBy.
Context {A : Type} (before : A -> A -> bool).

Fixpoint insert_sorted (x : A) (l : list A) : list A :=
  match l with
  | [] => [x]
  | y :: l' => if before x y then x :: y :: l' else y :: insert_sorted x l'
  end.

Definition sort_by (l : list A) : list A := fold_right insert_sorted [] l.
End OrderBy.

Definition desc {A} (key : A -> Z) (x y : A) : bool := key y <=? key x.

(** ** Post query sets *)

(** The multi-valued relations of [Post]: the many-to-many fields [likes]
    and [tags], and [comments], the reverse of [Comment.post]. *)
Inductive PostRel := RLikes | RTags | RComments.

#[global] Instance PostRel_eq_dec : EqDecision PostRel.
Proof. solve_decision. Defined.

Definition post_related (db : DB) (rel : PostRel) (pid : Z) : list Z :=
  match rel with
  | RLikes => map snd (List.filter (fun '(p, _) => p =? pid) (post_likes db))
  | RTags => map snd (List.filter (fun '(p, _) => p =? pid) (post_tags db))
  | RComments =>
      map comment_id (List.filter (fun c => comment_post_id c =? pid) (comments db))
  end.

(** What a [PostQuerySet] starts from: [Post.objects], the related
    managers that the field declarations create, [user.liked_posts]
    ([likes], [related_name='liked_posts']), [tag.posts] ([tags],
    [related_name='posts']) and [user.post_set] ([author]), and
    [Post.objects] filtered across a multi-valued relation,
    [Post.objects.filter(<rel>__in=ids)]. *)
Inductive PostManager :=
| Post_objects
| liked_posts_of (user : Z)
| posts_of_tag (tag : Z)
| post_set_of (user : Z)
| Post_objects_filter (rel : PostRel) (ids : list Z).

Inductive PostOrdering :=
| ByPublishedAtDesc      (* Meta.ordering = ['-published_at'] *)
| ByLikesCountDesc.      (* order_by('-likes_count') *)

Record PostQuery := mkPostQuery {
  q_manager : PostManager;
  q_id_in : list (list Z);            (* one entry per filter(id__in=ids) *)
  q_likes_count : bool;               (* annotate(likes_count=Count('likes')) *)
  q_comments_count : bool;            (* annotate(comments_count=Count('comments', distinct=True)) *)
  q_order_by : PostOrdering;
  q_select_related_author : bool;     (* select_related('author') *)
  q_prefetch_tags : bool              (* prefetch_related(Prefetch('tags', ...)) *)
}.

Definition manager_query (m : PostManager) : PostQuery :=
  mkPostQuery m [] false false ByPublishedAtDesc false false.

Definition filter_id_in (ids : list Z) (q : PostQuery) : PostQuery :=
  mkPostQuery (q_manager q) (q_id_in q ++ [ids]) (q_likes_count q) (q_comments_count q)
    (q_order_by q) (q_select_related_author q) (q_prefetch_tags q).

Definition annotate_likes_count (q : PostQuery) : PostQuery :=
  mkPostQuery (q_manager q) (q_id_in q) true (q_comments_count q)
    (q_order_by q) (q_select_related_author q) (q_prefetch_tags q).

Definition annotate_comments_count (q : PostQuery) : PostQuery :=
  mkPostQuery (q_manager q) (q_id_in q) (q_likes_count q) true
    (q_order_by q) (q_select_related_author q) (q_prefetch_tags q).

Definition order_by (o : PostOrdering) (q : PostQuery) : PostQuery :=
  mkPostQuery (q_manager q) (q_id_in q) (q_likes_count q) (q_comments_count q)
    o (q_select_related_author q) (q_prefetch_tags q).

Definition select_related_author (q : PostQuery) : PostQuery :=
  mkPostQuery (q_manager q) (q_id_in q) (q_likes_count q) (q_comments_count q)
    (q_order_by q) true (q_prefetch_tags q).

Definition prefetch_related_tags (q : PostQuery) : PostQuery :=
  mkPostQuery (q_manager q) (q_id_in q) (q_likes_count q) (q_comments_count q)
    (q_order_by q) (q_select_related_author q) true.

(** A related manager of a many-to-many field filters across the
    relation, which joins the join table, as a filter across a relation
    does; [user.post_set] compares the post's own [author_id] column. *)
Definition manager_joins (m : PostManager) : list (Join PostRel) :=
  match m with
  | Post_objects => []
  | liked_posts_of u => [mkJoin RLikes (Some [u])]
  | posts_of_tag t => [mkJoin RTags (Some [t])]
  | post_set_of _ => []
  | Post_objects_filter rel ids => [mkJoin rel (Some ids)]
  end.

(** The starts that select every post at most once and do not join the
    likes: [Post.objects], [tag.posts] and [user.post_set]. *)
Definition joins_no_likes (m : PostManager) : bool :=
  match m with
  | Post_objects | posts_of_tag _ | post_set_of _ => true
  | liked_posts_of _ | Post_objects_filter _ _ => false
  end.

Definition manager_where (m : PostManager) (r : Post) : bool :=
  match m with
  | post_set_of u => post_author_id r =? u
  | _ => true
  end.

Definition post_joins (q : PostQuery) : list (Join PostRel) :=
  let j0 := manager_joins (q_manager q) in
  let j1 := if q_likes_count q then add_join RLikes j0 else j0 in
  if q_comments_count q then add_join RComments j1 else j1.

Definition post_where (q : PostQuery) (r : Post) : bool :=
  manager_where (q_manager q) r
  && forallb (fun ids => existsb (Z.eqb (post_id r)) ids) (q_id_in q).

(** The objects one base row contributes.  With an aggregate the joined
    rows are grouped by the post, so a post with at least one joined row
    yields one object carrying the counts; without one, every joined row
    yields an object.  [select_related('author')] joins the author's row
    and caches it on the object. *)
Definition post_group (db : DB) (q : PostQuery) (r : Post) : list PostObj :=
  let joins := post_joins q in
  let rows := rows_of (post_related db) joins (post_id r) in
  let obj author :=
    mkPostObj r
      (if q_likes_count q then Some (Count RLikes false joins rows) else None)
      (if q_comments_count q then Some (Count RComments true joins rows) else None)
      author None in
  let objs author :=
    if q_likes_count q || q_comments_count q
    then match rows with [] => [] | _ :: _ => [obj author] end
    else map (fun _ => obj author) rows in
  if q_select_related_author q
  then match List.find (fun u => user_id u =? post_author_id r) (users db) with
       | Some u => objs (Some u)
       | None => []
       end
  else objs None.

Definition likes_key (o : PostObj) : Z := Z.of_nat (default 0%nat (p_likes_count o)).

Definition post_before (o : PostOrdering) : PostObj -> PostObj -> bool :=
  match o with
  | ByPublishedAtDesc => desc (fun x => post_published_at (p_row x))
  | ByLikesCountDesc => desc likes_key
  end.

Definition select_posts (db : DB) (q : PostQuery) : list PostObj :=
  sort_by (post_before (q_order_by q))
    (flat_map (post_group db q) (List.filter (post_where q) (posts db))).

(** ** Tag query sets *)

Inductive TagRel := RPosts.

#[global] Instance TagRel_eq_dec : EqDecision TagRel.
Proof. solve_decision. Defined.

(** [tag.posts], the reverse side of [Post.tags]. *)
Definition tag_related (db : DB) (rel : TagRel) (tid : Z) : list Z :=
  match rel with
  | RPosts => map fst (List.filter (fun '(_, t) => t =? tid) (post_tags db))
  end.

(** What a [TagQuerySet] starts from: [Tag.objects], the related manager
    [post.tags], and [Tag.objects] filtered across the relation,
    [Tag.objects.filter(posts__in=ids)]. *)
Inductive TagManager :=
| Tag_objects
| tags_of_post (post : Z)
| Tag_objects_filter_posts (ids : list Z).

Inductive TagOrdering :=
| ByTitle                (* Meta.ordering = ['title'] *)
| ByPostsCountDesc.      (* order_by('-posts_count') *)

Record TagQuery := mkTagQuery {
  tq_manager : TagManager;
  tq_id_in : list (list Z);           (* one entry per filter(id__in=ids) *)
  tq_posts_count : bool;              (* annotate(posts_count=Count('posts')) *)
  tq_order_by : TagOrdering
}.

Definition tag_manager_query (m : TagManager) : TagQuery :=
  mkTagQuery m [] false ByTitle.

Definition tag_filter_id_in (ids : list Z) (q : TagQuery) : TagQuery :=
  mkTagQuery (tq_manager q) (tq_id_in q ++ [ids]) (tq_posts_count q) (tq_order_by q).

Definition tag_manager_joins (m : TagManager) : list (Join TagRel) :=
  match m with
  | Tag_objects => []
  | tags_of_post p => [mkJoin RPosts (Some [p])]
  | Tag_objects_filter_posts ids => [mkJoin RPosts (Some ids)]
  end.

Definition tag_where (q : TagQuery) (t : Tag) : bool :=
  forallb (fun ids => existsb (Z.eqb (tag_id t)) ids) (tq_id_in q).

Definition tag_joins (q : TagQuery) : list (Join TagRel) :=
  let j0 := tag_manager_joins (tq_manager q) in
  if tq_posts_count q then add_join RPosts j0 else j0.

Definition tag_group (db : DB) (q : TagQuery) (t : Tag) : list TagObj :=
  let joins := tag_joins q in
  let rows := rows_of (tag_related db) joins (tag_id t) in
  if tq_posts_count q
  then match rows with
       | [] => []
       | _ :: _ => [mkTagObj (Some (tag_id t)) (tag_title t)
                      (Some (Count RPosts false joins rows))]
       end
  else map (fun _ => Tag_from_row t) rows.

Definition posts_key (t : TagObj) : Z := Z.of_nat (default 0%nat (t_posts_count t)).

Definition tag_before (o : TagOrdering) : TagObj -> TagObj -> bool :=
  match o with
  | ByTitle => fun x y => str_leb (t_title x) (t_title y)
  | ByPostsCountDesc => desc posts_key
  end.

Definition select_tags (db : DB) (q : TagQuery) : list TagObj :=
  sort_by (tag_before (tq_order_by q))
    (flat_map (tag_group db q) (List.filter (tag_where q) (tags db))).

Module TagQuerySet.
(** [TagQuerySet.popular]:
    [self.annotate(posts_count=Count('posts')).order_by('-posts_count')]. *)
Definition popular (self : TagQuery) : TagQuery :=
  mkTagQuery (tq_manager self) (tq_id_in self) true ByPostsCountDesc.
End TagQuerySet.

(** ** Prefetching the tags of a batch of posts

    [prefetch_related(Prefetch('tags', queryset=Tag.objects.annotate(
    posts_count=Count('posts'))))] runs one more query once the posts
    are loaded.  The prefetcher takes the given query set, which already
    joins the join table for its [Count], filters it with
    [posts__in=<the loaded posts>], and selects the post id from the join
    table so that each tag can be handed to its post.  A filter that
    comes after an annotation does not reuse the annotation's join: it
    joins the table a second time.  The selected post id names the join
    table by its plain name, which is the first join, and a selected
    column is part of the [GROUP BY].  This is the query of Django 2.2
    to 5.1; later releases let the filter reuse the annotation's join,
    which leaves one row per tag and post, and releases after 2.2 drop
    the [ORDER BY] of [Meta.ordering] from a grouped query, so that the
    order of the prefetched tags is the database's.

    [SELECT post_tags.post_id, tag.*, COUNT(post_tags.post_id)
     FROM tag LEFT OUTER JOIN post_tags ON ...
              INNER JOIN post_tags T4 ON ...
     WHERE T4.post_id IN (...) GROUP BY post_tags.post_id, tag.* ORDER BY tag.title] *)
Definition prefetch_tag_joins (batch : list Z) : list (Join TagRel) :=
  [mkJoin RPosts None; mkJoin RPosts (Some batch)].

Definition prefetch_tag_group (db : DB) (batch : list Z) (t : Tag)
  : list (option Z * TagObj) :=
  let joins := prefetch_tag_joins batch in
  let rows := rows_of (tag_related db) joins (tag_id t) in
  map (fun v =>
         (v, mkTagObj (Some (tag_id t)) (tag_title t)
               (Some (Count RPosts false joins
                        (filter (fun row => row !! 0%nat = Some v) rows)))))
      (remove_dups (omap (fun row => row !! 0%nat) rows)).

Definition prefetch_tag_rows (db : DB) (batch : list Z) : list (option Z * TagObj) :=
  flat_map (prefetch_tag_group db batch) (sort_by (fun x y => str_leb (tag_title x) (tag_title y)) (tags db)).

(** Each loaded post gets the tags selected with its own id. *)
Definition prefetch_tags (db : DB) (objs : list PostObj) : list PostObj :=
  let rows := prefetch_tag_rows db (map p_id objs) in
  map (fun o =>
         mkPostObj (p_row o) (p_likes_count o) (p_comments_count o) (p_author o)
           (Some (map snd (filter (fun vt => vt.1 = Some (p_id o)) rows))))
      objs.

(** Evaluating a post query set: the main query, then the prefetch. *)
Definition run_posts (db : DB) (q : PostQuery) : list PostObj :=
  let objs := select_posts db q in
  if q_prefetch_tags q then prefetch_tags db objs else objs.

(** ** Query-set objects and the heap of loaded posts

    A query set is evaluated the first time it is iterated; the objects
    it creates stay in its result cache and every later iteration yields
    those same objects.  Loaded posts live in a heap and are named by
    their address, so that an attribute assignment is seen through every
    reference to the object. *)
Definition Heap := list PostObj.

Record PostQuerySetObj := mkQS {
  qs_query : PostQuery;
  qs_result_cache : option (list nat)
}.

(** Iterating a query set ([for post in posts]). *)
Definition iterate (db : DB) (h : Heap) (qs : PostQuerySetObj)
  : Heap * PostQuerySetObj * list nat :=
  match qs_result_cache qs with
  | Some locs => (h, qs, locs)
  | None =>
      let objs := run_posts db (qs_query qs) in
      let locs := seq (length h) (length objs) in
      (h ++ objs, mkQS (qs_query qs) (Some locs), locs)
  end.

(** [dict(pairs)]: a later pair with the same key wins. *)
Definition dict (pairs : list (Z * nat)) : gmap Z nat :=
  foldl (fun m kv => <[kv.1 := kv.2]> m) ∅ pairs.

(** [values_list('id', 'comments_count')]. *)
Definition values_list_id_comments_count (db : DB) (q : PostQuery) : list (Z * nat) :=
  map (fun o => (p_id o, default 0%nat (p_comments_count o))) (select_posts db q).

Module PostQuerySet.

(** [popular]:
    [self.annotate(likes_count=Count('likes')).order_by('-likes_count')]. *)
Definition popular (self : PostQuery) : PostQuery :=
  order_by ByLikesCountDesc (annotate_likes_count self).

(** [prefetch_with_tags_and_authors]:
    [self.select_related('author').prefetch_related(Prefetch('tags',
    queryset=Tag.objects.annotate(posts_count=Count('posts'))))]. *)
Definition prefetch_with_tags_and_authors (self : PostQuery) : PostQuery :=
  prefetch_related_tags (select_related_author self).

(** [post_ids = [post.id for post in posts]]. *)
Definition post_ids (h : Heap) (locs : list nat) : list Z :=
  omap (fun l => p_id <$> h !! l) locs.

(** [count_for_id = dict(Post.objects.filter(id__in=post_ids)
      .annotate(comments_count=Count('comments', distinct=True))
      .values_list('id', 'comments_count'))]. *)
Definition count_for_id (db : DB) (ids : list Z) : gmap Z nat :=
  let posts_with_comments :=
    annotate_comments_count (filter_id_in ids (manager_query Post_objects)) in
  let ids_and_comments := values_list_id_comments_count db posts_with_comments in
  dict ids_and_comments.

(** [for post in posts: post.comments_count = count_for_id[post.id]].
    The subscript raises [KeyError] when the id is not a key; the
    posts handled before keep their new attribute. *)
Fixpoint attach_counts (counts : gmap Z nat) (locs : list nat) (h : Heap)
  : Heap * Outcome unit :=
  match locs with
  | [] => (h, Return tt)
  | l :: rest =>
      match h !! l with
      | Some post =>
          match counts !! p_id post with
          | Some n => attach_counts counts rest (<[l := set_comments_count n post]> h)
          | None => (h, Raise (KeyError (p_id post)))
          end
      | None => attach_counts counts rest h
      end
  end.

(** [fetch_with_comments_count]: returns [posts], which is [self]. *)
Definition fetch_with_comments_count (db : DB) (h : Heap) (self : PostQuerySetObj)
  : Heap * Outcome PostQuerySetObj :=
  let '(h1, posts, locs) := iterate db h self in
  let counts := count_for_id db (post_ids h1 locs) in
  let '(h2, r) := attach_counts counts locs h1 in
  (h2, _ <- r ;; Return posts).

End PostQuerySet.

(** The posts a query set yields when it is iterated in heap [h]. *)
Definition iterated (db : DB) (h : Heap) (qs : PostQuerySetObj) : Heap * list nat :=
  let '(h1, _, locs) := iterate db h qs in (h1, locs).

(** The number of distinct comments that reference post [pid]. *)
Definition distinct_comments (db : DB) (pid : Z) : nat :=
  length (remove_dups
            (map comment_id (List.filter (fun c => comment_post_id c =? pid) (comments db)))).

(** The number of like rows and of tag rows of a post, and of post rows
    of a tag. *)
Definition number_of_likes (db : DB) (pid : Z) : nat :=
  length (List.filter (fun '(p, _) => p =? pid) (post_likes db)).

Definition number_of_posts (db : DB) (tid : Z) : nat :=
  length (List.filter (fun '(_, t) => t =? tid) (post_tags db)).

(** ** Sample data *)

Definition sample_db : DB :=
  mkDB
    [mkUser 1 "ann" true; mkUser 2 "bob" false; mkUser 3 "eve" false]
    [mkPost 1 "First" "..." "first" "1.png" 10 1;
     mkPost 2 "Second" "..." "second" "2.png" 20 1;
     mkPost 3 "Third" "..." "third" "3.png" 30 1]
    [mkTag 1 "python"; mkTag 2 "django"]
    [mkComment 1 1 2 "nice" 11; mkComment 2 1 3 "indeed" 12; mkComment 3 2 2 "ok" 21]
    [(1, 1); (1, 2); (2, 1)]
    [(1, 1); (2, 1); (3, 1); (1, 2)].

(** The two routes the module's URL hooks name, with the usual patterns
    [post/<slug:slug>] and [tag/<slug:tag_title>]. *)
Definition sample_urlconf : list Route :=
  [mkRoute "post_detail" [Lit "post/"; Param "slug" SlugConv];
   mkRoute "tag_filter" [Lit "tag/"; Param "tag_title" SlugConv]].

Definition sample_post : PostObj :=
  Post_from_row (mkPost 1 "First" "..." "first" "1.png" 10 1).

(** ** Vocabulary of the statements *)

(** A list is in descending order of [key] when every element's key is
    at least the key of every element behind it. *)
Definition descending {A} (key : A -> Z) : list A -> Prop :=
  StronglySorted (fun x y => key y <= key x).


(** The number of posts of a batch that bear tag [tid]. *)
Definition posts_in_batch (db : DB) (batch : list Z) (tid : Z) : nat :=
  length (List.filter (fun p => existsb (Z.eqb p) batch) (tag_related db RPosts tid)).

(** What the loop of [fetch_with_comments_count] does to one post. *)
Definition with_count (counts : gmap Z nat) (post : PostObj) : PostObj :=
  match counts !! p_id post with
  | Some n => set_comments_count n post
  | None => post
  end.

(** Two post objects that agree on everything but [comments_count]. *)
Definition same_but_comments_count (a b : PostObj) : Prop :=
  p_row a = p_row b /\ p_likes_count a = p_likes_count b
  /\ p_author a = p_author b /\ p_tags a = p_tags b.

(** The sample posts once loaded through [Post.objects], and the
    database after post 1 has been deleted behind their back. *)
Definition sample_loaded : Heap * PostQuerySetObj :=
  let '(h, qs, _) := iterate sample_db [] (mkQS (manager_query Post_objects) None) in
  (h, qs).

Definition sample_db_without_post_1 : DB :=
  match Post_delete sample_db 1 with
  | Return db => db
  | Raise _ => sample_db
  end.

(** A query set over [Post.objects] that has not been evaluated yet. *)
Definition sample_queryset : PostQuerySetObj := mkQS (manager_query Post_objects) None.

(** ** The rest of the module: cascades from users, string forms,
    default orderings *)

(** [Post.author] and [Comment.author] are foreign keys to [User], both
    declared with [on_delete=models.CASCADE]. *)
Definition Post_author_on_delete : OnDelete := CASCADE.
Definition Comment_author_on_delete : OnDelete := CASCADE.

(** The rows that a handler deletes together with the referenced row. *)
Definition cascaded {A} (h : OnDelete) (refers : A -> bool) (rows : list A) : list A :=
  match h with
  | CASCADE => List.filter refers rows
  | PROTECT | DO_NOTHING => []
  end.

(** [user.delete()]: the posts of the user follow their handler, then
    the comments on the posts that go and the comments of the user
    follow theirs; the rows of the join tables that name the user or a
    post that goes are removed with them. *)
Definition User_delete (db : DB) (uid : Z) : Outcome DB :=
  let by_user := fun p => post_author_id p =? uid in
  ps <- apply_on_delete Post_author_on_delete by_user (posts db) ;;
  let gone := map post_id (cascaded Post_author_on_delete by_user (posts db)) in
  let on_gone := fun k => existsb (Z.eqb k) gone in
  cs1 <- apply_on_delete Comment_post_on_delete
           (fun c => on_gone (comment_post_id c)) (comments db) ;;
  cs2 <- apply_on_delete Comment_author_on_delete
           (fun c => comment_author_id c =? uid) cs1 ;;
  Return (mkDB (List.filter (fun u => negb (user_id u =? uid)) (users db))
            ps
            (tags db)
            cs2
            (List.filter (fun '(p, u) => negb (u =? uid) && negb (on_gone p)) (post_likes db))
            (List.filter (fun '(p, _) => negb (on_gone p)) (post_tags db))).

(** Referential consistency of the database: every foreign key and every
    row of a join table names rows that exist. *)
Definition has_user (db : DB) (k : Z) : bool := existsb (fun u => user_id u =? k) (users db).
Definition has_post (db : DB) (k : Z) : bool := existsb (fun p => post_id p =? k) (posts db).
Definition has_tag (db : DB) (k : Z) : bool := existsb (fun t => tag_id t =? k) (tags db).

Definition consistent (db : DB) : bool :=
  forallb (fun p => has_user db (post_author_id p)) (posts db)
  && forallb (fun c => has_post db (comment_post_id c) && has_user db (comment_author_id c))
       (comments db)
  && forallb (fun '(p, u) => has_post db p && has_user db u) (post_likes db)
  && forallb (fun '(p, t) => has_post db p && has_tag db t) (post_tags db).

(** Following a foreign key from an instance loads the related row, and
    raises the related model's [DoesNotExist] when there is none. *)
Inductive DoesNotExist := User_DoesNotExist | Post_DoesNotExist.

(** [Post.__str__] and [Tag.__str__]: [return self.title]. *)
Definition Post___str__ (p : PostObj) : string := post_title (p_row p).
Definition Tag___str__ (t : TagObj) : str := t_title t.

(** [Comment.__str__]:
    [return f'{self.author.username} under {self.post.title}']; the
    author is looked up first, then the post. *)
Definition Comment___str__ (db : DB) (c : Comment) : DoesNotExist + string :=
  match List.find (fun u => user_id u =? comment_author_id c) (users db) with
  | None => inl User_DoesNotExist
  | Some author =>
      match List.find (fun p => post_id p =? comment_post_id c) (posts db) with
      | None => inl Post_DoesNotExist
      | Some post => inr (String.append (username author)
                            (String.append " under " (post_title post)))
      end
  end.

(** [post.comments.all()], the related manager that
    [related_name='comments'] creates: the comments of the post in the
    order of [Comment.Meta.ordering = ['published_at']]. *)
Definition asc {A} (key : A -> Z) (x y : A) : bool := key x <=? key y.

Definition comments_of_post (db : DB) (pid : Z) : list Comment :=
  sort_by (asc comment_published_at)
    (List.filter (fun c => comment_post_id c =? pid) (comments db)).

(** A list is in ascending order of [key] when every element's key is at
    most the key of every element behind it. *)
Definition ascending {A} (key : A -> Z) : list A -> Prop :=
  StronglySorted (fun x y => key x <= key y).

(** Tags in the order of their titles: each title is at most the next. *)
Definition titles_in_order : list TagObj -> Prop :=
  Sorted (fun x y => str_leb (t_title x) (t_title y) = true).

(** What validation promises about the stored tags: titles are not
    blank, hold no character that [str.lower()] would change, and are
    pairwise different, and ids are pairwise different. *)
Definition tags_valid (unicode : UnicodeData) (db : DB) : Prop :=
  List.NoDup (map tag_title (tags db))
  /\ List.NoDup (map tag_id (tags db))
  /\ Forall (fun r => tag_title r <> [] /\ Forall (is_lower unicode) (tag_title r))
       (tags db).

(** An excerpt of the Unicode character database: Basic Latin, the
    Cyrillic letters U+0400..U+045F, the Greek sigmas and the capital I
    with dot above (U+0130), whose lowercase has two characters.  The
    characters outside the excerpt are left as they are. *)
Definition in_range (lo hi c : N) : bool := ((lo <=? c) && (c <=? hi))%N.

Definition sample_unicode : UnicodeData :=
  mkUnicodeData
    (fun c =>
       if in_range 0x41 0x5A c then [c + 0x20]
       else if in_range 0x410 0x42F c then [c + 0x20]
       else if in_range 0x400 0x40F c then [c + 0x50]
       else if c =? capital_sigma then [small_sigma]
       else if c =? 0x130 then [0x69; 0x307]
       else [c])%N
    (fun c =>
       in_range 0x41 0x5A c || in_range 0x61 0x7A c || in_range 0x400 0x45F c
       || in_range small_final_sigma small_sigma c
       || (c =? capital_sigma) || (c =? 0x130))%N
    (fun c =>
       (c =? 0x27) || (c =? 0x2E) || (c =? 0x3A) || (c =? 0x5E) || (c =? 0x60)
       || (c =? 0x307))%N.
(** * Properties *)

(** ** Lowercasing and validation of tags *)

Lemma str_leb_total (a b : str) : str_leb a b = true \/ str_leb b a = true.
Proof.
  revert b. induction a as [| x a IH]; intros [| y b]; cbn [str_leb]; auto.
  destruct (N.ltb_spec x y) as [Hxy | Hxy]; [now left |].
  destruct (N.ltb_spec y x) as [Hyx | Hyx]; [now right |].
  assert (x = y) as -> by lia. rewrite N.eqb_refl. apply IH.
Qed.

Section LowerFacts.
Variable unicode : UnicodeData.
Hypothesis ok : unicode_data_ok unicode.

(** Lowercasing leaves a text of lowercase characters as it is. *)
Lemma lower_from_fixed (before s : str) :
  Forall (is_lower unicode) s -> lower_from unicode before s = s.
Proof.
  intros Hs. revert before. induction Hs as [| c s [Hc Hl] _ IH]; intros before.
  - reflexivity.
  - cbn [lower_from]. unfold lower_char.
    apply N.eqb_neq in Hc. rewrite Hc, Hl, IH. reflexivity.
Qed.

Lemma lower_char_is_lower (before : str) (c : N) (after : str) :
  Forall (is_lower unicode) (lower_char unicode before c after).
Proof.
  unfold lower_char. destruct (c =? capital_sigma)%N.
  - constructor; [| constructor].
    destruct (final_sigma unicode before after);
      [apply (small_final_sigma_is_lower unicode ok) | apply (small_sigma_is_lower unicode ok)].
  - apply List.Forall_forall. intros d Hd. exact (lower_is_lower unicode ok c d Hd).
Qed.

Lemma lower_from_is_lower (before s : str) :
  Forall (is_lower unicode) (lower_from unicode before s).
Proof.
  revert before. induction s as [| c s IH]; intros before; cbn [lower_from].
  - constructor.
  - apply List.Forall_app. split; [apply lower_char_is_lower | apply IH].
Qed.

Lemma str_lower_is_lower (s : str) : Forall (is_lower unicode) (str_lower unicode s).
Proof. apply lower_from_is_lower. Qed.

Lemma str_lower_idempotent (s : str) :
  str_lower unicode (str_lower unicode s) = str_lower unicode s.
Proof. apply lower_from_fixed, str_lower_is_lower. Qed.

(** On ASCII characters lowercasing maps [A]..[Z] to [a]..[z]. *)
Lemma lower_from_ascii (before s : str) :
  Forall (fun c => (c < 128)%N) s -> lower_from unicode before s = map ascii_lower s.
Proof.
  intros Hs. revert before. induction Hs as [| c s Hc _ IH]; intros before.
  - reflexivity.
  - cbn [lower_from map]. unfold lower_char.
    assert (Hn : (c =? capital_sigma)%N = false)
      by (apply N.eqb_neq; unfold capital_sigma; lia).
    rewrite Hn, (lower_of_ascii unicode ok c Hc), IH. reflexivity.
Qed.

Lemma str_lower_not_blank (s : str) : s <> [] -> str_lower unicode s <> [].
Proof.
  destruct s as [| c s]; [congruence |]. intros _ H.
  unfold str_lower in H. cbn [lower_from] in H. apply app_eq_nil in H as [H _].
  unfold lower_char in H. destruct (c =? capital_sigma)%N; [discriminate |].
  exact (lower_not_empty unicode ok c H).
Qed.
End LowerFacts.

Lemma in_range_true (lo hi c : N) : in_range lo hi c = true <-> (lo <= c <= hi)%N.
Proof. unfold in_range. rewrite andb_true_iff, !N.leb_le. reflexivity. Qed.

Lemma in_range_false (lo hi c : N) : in_range lo hi c = false <-> (c < lo \/ hi < c)%N.
Proof. unfold in_range. rewrite andb_false_iff, !N.leb_gt. reflexivity. Qed.

(** The characters that the excerpt maps to themselves. *)
Lemma sample_lower_fixed (d : N) :
  (d < 0x41 \/ 0x5A < d)%N -> (d < 0x400 \/ 0x42F < d)%N ->
  d <> capital_sigma -> d <> 0x130%N ->
  to_lower_full sample_unicode d = [d].
Proof.
  intros H1 H2 H3 H4. unfold sample_unicode. cbn [to_lower_full].
  assert (E1 : in_range 0x41 0x5A d = false) by (apply in_range_false; exact H1).
  assert (E2 : in_range 0x410 0x42F d = false) by (apply in_range_false; lia).
  assert (E3 : in_range 0x400 0x40F d = false) by (apply in_range_false; lia).
  apply N.eqb_neq in H3. apply N.eqb_neq in H4.
  rewrite E1, E2, E3, H3, H4. reflexivity.
Qed.

Lemma sample_lower_is_lower (c d : N) :
  In d (to_lower_full sample_unicode c) -> is_lower sample_unicode d.
Proof.
  unfold is_lower. unfold sample_unicode at 1. cbn [to_lower_full].
  destruct (in_range 0x41 0x5A c) eqn:E1.
  { apply in_range_true in E1. intros [<- | []].
    split; [unfold capital_sigma; lia |].
    apply sample_lower_fixed; unfold capital_sigma; lia. }
  destruct (in_range 0x410 0x42F c) eqn:E2.
  { apply in_range_true in E2. intros [<- | []].
    split; [unfold capital_sigma; lia |].
    apply sample_lower_fixed; unfold capital_sigma; lia. }
  destruct (in_range 0x400 0x40F c) eqn:E3.
  { apply in_range_true in E3. intros [<- | []].
    split; [unfold capital_sigma; lia |].
    apply sample_lower_fixed; unfold capital_sigma; lia. }
  destruct (N.eqb_spec c capital_sigma) as [E4 | E4].
  { intros [<- | []]. split; [discriminate | reflexivity]. }
  destruct (N.eqb_spec c 0x130) as [E5 | E5].
  { intros [<- | [<- | []]]; (split; [discriminate | reflexivity]). }
  apply in_range_false in E1. apply in_range_false in E2. apply in_range_false in E3.
  intros [<- | []]. split; [exact E4 |].
  apply sample_lower_fixed; [exact E1 | lia | exact E4 | exact E5].
Qed.

(** The excerpt has the properties asked of the database. *)
Lemma sample_unicode_ok : unicode_data_ok sample_unicode.
Proof.
  split.
  - exact sample_lower_is_lower.
  - split; [discriminate | reflexivity].
  - split; [discriminate | reflexivity].
  - intros c. unfold sample_unicode. cbn [to_lower_full].
    destruct (in_range 0x41 0x5A c); [discriminate |].
    destruct (in_range 0x410 0x42F c); [discriminate |].
    destruct (in_range 0x400 0x40F c); [discriminate |].
    destruct (c =? capital_sigma)%N; [discriminate |].
    destruct (c =? 0x130)%N; discriminate.
  - intros c Hc. unfold ascii_lower. fold (in_range 65 90 c).
    destruct (in_range 65 90 c) eqn:E1.
    + unfold sample_unicode. cbn [to_lower_full].
      change (in_range 0x41 0x5A c) with (in_range 65 90 c). rewrite E1. reflexivity.
    + apply in_range_false in E1.
      apply sample_lower_fixed; unfold capital_sigma; lia.
Qed.

Lemma next_tag_id_above (db : DB) (r : Tag) :
  In r (tags db) -> tag_id r < next_tag_id db.
Proof.
  unfold next_tag_id. induction (tags db) as [| x l IH]; simpl; intros Hin.
  - contradiction.
  - destruct Hin as [-> | Hin]; [| specialize (IH Hin)]; lia.
Qed.

Lemma find_app_last {A} (f : A -> bool) (l : list A) (x : A) :
  (forall y, In y l -> f y = false) -> f x = true ->
  List.find f (l ++ [x]) = Some x.
Proof.
  intros Hl Hx. induction l as [| y l IH]; simpl.
  - now rewrite Hx.
  - rewrite (Hl y) by now left. apply IH. intros z Hz. apply Hl. now right.
Qed.

(** Saving a new instance and reading it back by its id gives its title. *)
Lemma Tag_save_new_get (db : DB) (t : TagObj) :
  t_id t = None ->
  exists k, t_id (Tag_save db t).2 = Some k
            /\ Tag_get (Tag_save db t).1 k = Some (mkTagObj (Some k) (t_title t) None).
Proof.
  intros Hid. exists (next_tag_id db). unfold Tag_save, Tag_get. rewrite Hid. simpl.
  split; [reflexivity |].
  erewrite find_app_last; [reflexivity | | simpl; apply Z.eqb_refl].
  intros y Hy. apply Z.eqb_neq. apply (next_tag_id_above db) in Hy. lia.
Qed.

(** What a successful creation through validation returns and stores. *)
Lemma Tag_create_validated_returns
      (unicode : UnicodeData) (db db' : DB) (title : str) (t' : TagObj) :
  Tag_create_validated unicode db title = Return (db', t') ->
  t_title t' = str_lower unicode title
  /\ exists k, t_id t' = Some k
               /\ t_title <$> Tag_get db' k = Some (str_lower unicode title).
Proof.
  intros H. unfold Tag_create_validated, Tag_full_clean in H.
  destruct (_ <- Tag_clean_fields (Tag_new title) ;;
            Tag_validate_unique db (Tag_clean unicode (Tag_new title))) eqn:E;
    cbn [bind] in H; [| discriminate].
  assert (Hs : Tag_save db (Tag_clean unicode (Tag_new title)) = (db', t')) by congruence.
  destruct (Tag_save_new_get db (Tag_clean unicode (Tag_new title)) eq_refl)
    as (k & Hk & Hget).
  rewrite Hs in Hk, Hget. simpl in Hk, Hget.
  assert (Ht : t_title t' = str_lower unicode title).
  { replace t' with (Tag_save db (Tag_clean unicode (Tag_new title))).2 by now rewrite Hs.
    reflexivity. }
  split; [exact Ht |].
  exists k. split; [exact Hk |]. now rewrite Hget.
Qed.

(** C6. [str.lower()] is taken over any character database with the
    properties of [unicode_data_ok].  After [clean()] the title of a tag
    equals its own lowercase, and it holds no character that lowercasing
    would change; on a title of ASCII characters [clean()] maps the
    letters [A]..[Z] to [a]..[z] and keeps the rest.  A tag created
    through validation is stored, and read back, under the lowercase of
    the title it was given; in particular "Python" is stored and read
    back as "python". *)
Theorem Tag_clean_title_is_lowercase (unicode : UnicodeData) :
  unicode_data_ok unicode ->
  (forall t : TagObj,
      t_title (Tag_clean unicode t) = str_lower unicode (t_title (Tag_clean unicode t))
      /\ Forall (fun c => c <> capital_sigma /\ to_lower_full unicode c = [c])
           (t_title (Tag_clean unicode t)))
  /\ (forall t : TagObj,
         Forall (fun c => (c < 128)%N) (t_title t) ->
         t_title (Tag_clean unicode t) = map ascii_lower (t_title t))
  /\ (forall (db db' : DB) (title : str) (t' : TagObj),
         Tag_create_validated unicode db title = Return (db', t') ->
         t_title t' = str_lower unicode title
         /\ str_lower unicode (t_title t') = t_title t'
         /\ exists k, t_id t' = Some k
                      /\ t_title <$> Tag_get db' k = Some (str_lower unicode title))
  /\ (exists (db' : DB) (t' : TagObj),
         Tag_create_validated unicode empty_db "Python" = Return (db', t')
         /\ t_title t' = "python"
         /\ t_title <$> Tag_get db' 1 = Some ("python" : str)).
Proof.
  intros ok.
  assert (Hpy : str_lower unicode "Python" = "python").
  { unfold str_lower. rewrite (lower_from_ascii unicode ok); [reflexivity |].
    repeat constructor. }
  split; [| split; [| split]].
  - intros t. cbn [Tag_clean t_title]. split.
    + now rewrite (str_lower_idempotent unicode ok).
    + apply (str_lower_is_lower unicode ok).
  - intros t Ht. cbn [Tag_clean t_title]. apply (lower_from_ascii unicode ok _ _ Ht).
  - intros db db' title t' H.
    destruct (Tag_create_validated_returns unicode db db' title t' H) as (Ht & Hk).
    split; [exact Ht |]. split; [| exact Hk].
    rewrite Ht. apply (str_lower_idempotent unicode ok).
  - exists (with_tags empty_db [mkTag 1 "python"]), (mkTagObj (Some 1) "python" None).
    assert (Hrun : Tag_create_validated unicode empty_db "Python"
                   = Return (with_tags empty_db [mkTag 1 "python"],
                             mkTagObj (Some 1) "python" None)).
    { unfold Tag_create_validated, Tag_full_clean, Tag_clean. cbn [t_title Tag_new].
      rewrite Hpy. reflexivity. }
    split; [exact Hrun |]. split; reflexivity.
Qed.

(** The excerpt of the database gives "python" for "Python", and a Cyrillic
    title is lowercased as well: U+0401 U+0436 becomes U+0451 U+0436. *)
Lemma Tag_clean_title_is_lowercase_witness :
  unicode_data_ok sample_unicode
  /\ exists (db' : DB) (t' : TagObj),
       Tag_create_validated sample_unicode empty_db "Python" = Return (db', t')
       /\ t_title t' = "python"
       /\ t_title <$> Tag_get db' 1 = Some ("python" : str).
Proof.
  split; [exact sample_unicode_ok |].
  apply (Tag_clean_title_is_lowercase sample_unicode sample_unicode_ok).
Defined.

Example Tag_clean_cyrillic :
  t_title (Tag_clean sample_unicode (Tag_new [0x401; 0x436]%N)) = [0x451; 0x436]%N.
Proof. reflexivity. Qed.

(** A capital sigma becomes the final sigma behind a letter at the end of
    the title and the plain small sigma elsewhere. *)
Example Tag_clean_sigma :
  t_title (Tag_clean sample_unicode (Tag_new [0x41; capital_sigma; 0x2E]%N))
  = [0x61; small_final_sigma; 0x2E]%N
  /\ t_title (Tag_clean sample_unicode (Tag_new [capital_sigma; 0x41]%N))
     = [small_sigma; 0x61]%N.
Proof. split; reflexivity. Qed.

(** ** Deleting a post *)

(** C7. Deleting a post succeeds and removes exactly the comments that
    reference it: a comment is left after the delete if and only if it
    was there before and its post is another one. *)
Theorem Post_delete_cascades_to_comments (db : DB) (pid : Z) :
  exists db' : DB,
    Post_delete db pid = Return db'
    /\ (forall c : Comment,
           In c (comments db') <-> In c (comments db) /\ comment_post_id c <> pid)
    /\ Forall (fun c => comment_post_id c <> pid) (comments db').
Proof.
  eexists. split; [reflexivity |]. simpl.
  assert (H : forall c : Comment,
             In c (List.filter (fun c0 => negb (comment_post_id c0 =? pid)) (comments db))
             <-> In c (comments db) /\ comment_post_id c <> pid).
  { intros c. rewrite filter_In, negb_true_iff, Z.eqb_neq. reflexivity. }
  split; [exact H |].
  apply List.Forall_forall. intros c Hc. now apply H in Hc.
Qed.

(** ** URL hooks *)

Lemma Tag_has_no_slug (t : TagObj) : Tag_getattr t "slug" = None.
Proof. reflexivity. Qed.

(** C9. For every tag, [get_absolute_url()] raises an attribute-lookup
    error on [slug], whatever the URL configuration: neither the instance
    nor the class has such an attribute, and the lookup happens before
    [reverse] is called. *)
Theorem Tag_get_absolute_url_raises (urlconf : list Route) (t : TagObj) :
  Tag_get_absolute_url urlconf t = Raise (AttributeError "slug").
Proof. unfold Tag_get_absolute_url. now rewrite Tag_has_no_slug. Qed.

(** C3. [Post.get_absolute_url] hands [reverse] a dict as [args];
    unpacking it yields its key, so the route is reversed with the string
    "slug" and the post's slug value never reaches it: the sample post
    with slug "first" gets "/post/slug", while reversing with its slug
    value gives "/post/first". *)
Theorem Post_get_absolute_url_uses_dict_key :
  (forall (urlconf : list Route) (p : PostObj),
      Post_get_absolute_url urlconf p = reverse urlconf "post_detail" (ArgsSeq ["slug"]))
  /\ Post_get_absolute_url sample_urlconf sample_post = Return "/post/slug"
  /\ reverse sample_urlconf "post_detail" (ArgsSeq [post_slug (p_row sample_post)])
     = Return "/post/first".
Proof. repeat split. Qed.

(** ** Ordering *)

Section OrderByFacts.
Context {A : Type} (before : A -> A -> bool).

Lemma insert_sorted_perm (x : A) (l : list A) :
  Permutation (insert_sorted before x l) (x :: l).
Proof.
  induction l as [| y l IH]; simpl.
  - reflexivity.
  - destruct (before x y).
    + reflexivity.
    + rewrite IH. apply perm_swap.
Qed.

Lemma sort_by_perm (l : list A) : Permutation (sort_by before l) l.
Proof.
  induction l as [| x l IH]; simpl.
  - reflexivity.
  - rewrite insert_sorted_perm. now apply perm_skip.
Qed.

Lemma sort_by_In (x : A) (l : list A) : In x (sort_by before l) <-> In x l.
Proof.
  split; apply Permutation_in; [| symmetry]; apply sort_by_perm.
Qed.
End OrderByFacts.

Section Descending.
Context {A : Type} (key : A -> Z).

Lemma insert_sorted_descending (x : A) (l : list A) :
  descending key l -> descending key (insert_sorted (desc key) x l).
Proof.
  unfold descending. induction l as [| y l IH]; simpl; intros Hl.
  - constructor; [constructor | constructor].
  - apply StronglySorted_inv in Hl as [Hl Hy].
    unfold desc at 1. destruct (key y <=? key x) eqn:E.
    + apply Z.leb_le in E. constructor.
      * now constructor.
      * constructor; [exact E |].
        eapply List.Forall_impl; [| exact Hy]. simpl. intros; lia.
    + apply Z.leb_gt in E. constructor; [now apply IH |].
      eapply Permutation_Forall; [symmetry; apply insert_sorted_perm |].
      constructor; [lia | exact Hy].
Qed.

Lemma sort_by_descending (l : list A) : descending key (sort_by (desc key) l).
Proof.
  induction l as [| x l IH]; simpl.
  - constructor.
  - now apply insert_sorted_descending.
Qed.
End Descending.

(** ** Joined rows and counts *)

Section RelationalFacts.
Context {Rel : Type} `{EqDecision Rel} (related : Rel -> Z -> list Z).

Lemma join_rows_single (c : list (option Z)) :
  join_rows [c] = map (fun v => [v]) c.
Proof. simpl. induction c as [| v c IH]; simpl; congruence. Qed.

Lemma join_rows_cons_single (v : option Z) (cs : list (list (option Z))) :
  join_rows ([v] :: cs) = map (cons v) (join_rows cs).
Proof. simpl. apply app_nil_r. Qed.

Lemma rows_of_cons (j : Join Rel) (js : list (Join Rel)) (k : Z) :
  rows_of related (j :: js) k
  = flat_map (fun v => map (cons v) (rows_of related js k)) (join_column related k j).
Proof. reflexivity. Qed.

Lemma column_values_cons (i : nat) (v : option Z) (rows : list (list (option Z))) :
  column_values (S i) (map (cons v) rows) = column_values i rows.
Proof.
  unfold column_values. induction rows as [| r rows IH]; simpl.
  - reflexivity.
  - destruct (mjoin (r !! i)); [f_equal |]; exact IH.
Qed.

Lemma column_values_singletons (l : list Z) :
  column_values 0 (map (fun v => [v]) (map Some l)) = l.
Proof.
  unfold column_values. induction l as [| x l IH]; simpl.
  - reflexivity.
  - f_equal. exact IH.
Qed.

(** The column of an outer join is never empty, and its non-[NULL]
    values are the related keys. *)
Lemma outer_column_values (rel : Rel) (k : Z) :
  column_values 0 (map (fun v => [v]) (join_column related k (mkJoin rel None)))
  = related rel k.
Proof.
  unfold join_column. simpl. destruct (related rel k) as [| x l] eqn:E.
  - reflexivity.
  - apply (column_values_singletons (x :: l)).
Qed.

Lemma outer_column_nonempty (rel : Rel) (k : Z) :
  join_column related k (mkJoin rel None) <> [].
Proof. unfold join_column. simpl. destruct (related rel k); discriminate. Qed.

(** A query whose only join is the aggregate's own outer join: one
    joined row per related key, and the count is their number. *)
Lemma rows_of_single_outer (rel : Rel) (k : Z) :
  rows_of related [mkJoin rel None] k
  = map (fun v => [v]) (join_column related k (mkJoin rel None)).
Proof. unfold rows_of. cbn [map]. apply join_rows_single. Qed.

Lemma rows_of_single_outer_nonempty (rel : Rel) (k : Z) :
  rows_of related [mkJoin rel None] k <> [].
Proof.
  rewrite rows_of_single_outer. intros H. apply map_eq_nil in H.
  now apply outer_column_nonempty in H.
Qed.

Lemma Count_single_outer (rel : Rel) (k : Z) (distinct : bool) :
  Count rel distinct [mkJoin rel None] (rows_of related [mkJoin rel None] k)
  = if distinct then length (remove_dups (related rel k))
    else length (related rel k).
Proof.
  unfold Count. cbn [join_index join_rel]. rewrite decide_True by reflexivity.
  unfold count_column. now rewrite rows_of_single_outer, outer_column_values.
Qed.
End RelationalFacts.

(** ** [TagQuerySet.popular] *)




Lemma flat_map_fields_ext {A B C} (f g : A -> list B) (p : B -> C) (l : list A) :
  (forall x, map p (f x) = map p (g x)) ->
  map p (flat_map f l) = map p (flat_map g l).
Proof.
  intros H. induction l as [| x l IH]; simpl.
  - reflexivity.
  - now rewrite !map_app, H, IH.
Qed.




(** A filter across the relation bounds the count as well:
    [Tag.objects.filter(posts__in=[1, 2]).popular()] gives the tag
    "python", which three posts bear, [posts_count = 2]. *)
Example TagQuerySet_popular_after_filter_across_posts :
  select_tags sample_db
    (TagQuerySet.popular (tag_manager_query (Tag_objects_filter_posts [1; 2])))
  = [mkTagObj (Some 1) "python" (Some 2%nat); mkTagObj (Some 2) "django" (Some 1%nat)]
  /\ number_of_posts sample_db 1 = 3%nat.
Proof. split; reflexivity. Qed.

(** ** [PostQuerySet.popular] *)

Lemma descending_map {A} (key : A -> Z) (f : A -> A) (l : list A) :
  (forall x, key (f x) = key x) -> descending key l -> descending key (map f l).
Proof.
  intros Hf. unfold descending. induction 1 as [| x l Hl IH Hx]; simpl.
  - constructor.
  - constructor; [exact IH |].
    apply List.Forall_map. eapply List.Forall_impl; [| exact Hx].
    simpl. intros y Hy. now rewrite !Hf.
Qed.

(** With a unique (post, tag) pair per row of the join table, the join
    made by [tag.posts] matches at most one row per post. *)
Lemma tag_filter_absent (l : list (Z * Z)) (k t : Z) :
  ~ In (k, t) l ->
  List.filter (fun x => existsb (Z.eqb x) [t])
    (map snd (List.filter (fun '(p, _) => p =? k) l)) = [].
Proof.
  induction l as [| [p x] l IH]; simpl; intros Hn.
  - reflexivity.
  - destruct (p =? k) eqn:Ep; simpl.
    + destruct (x =? t) eqn:Ex; simpl.
      * apply Z.eqb_eq in Ep, Ex. subst. tauto.
      * apply IH. tauto.
    + apply IH. tauto.
Qed.

Lemma tag_filter_at_most_one (l : list (Z * Z)) (k t : Z) :
  List.NoDup l ->
  let f := List.filter (fun x => existsb (Z.eqb x) [t])
             (map snd (List.filter (fun '(p, _) => p =? k) l)) in
  f = [] \/ f = [t].
Proof.
  induction 1 as [| [p x] l Hn Hl IH]; simpl.
  - now left.
  - destruct (p =? k) eqn:Ep; simpl; [| exact IH].
    destruct (x =? t) eqn:Ex; simpl; [| exact IH].
    apply Z.eqb_eq in Ep, Ex. subst. right.
    exact (f_equal (cons t) (tag_filter_absent l k t Hn)).
Qed.

Lemma tag_column_at_most_one (db : DB) (k t : Z) :
  List.NoDup (post_tags db) ->
  let c := join_column (post_related db) k (mkJoin RTags (Some [t])) in
  c = [] \/ c = [Some t].
Proof.
  intros Hn. unfold join_column. cbn [join_in join_rel post_related].
  destruct (tag_filter_at_most_one (post_tags db) k t Hn) as [-> | ->]; auto.
Qed.

Lemma number_of_likes_related (db : DB) (k : Z) :
  length (post_related db RLikes k) = number_of_likes db k.
Proof. unfold number_of_likes. simpl. apply length_map. Qed.

(** The joined rows of one post, before and after [Count('likes')] is
    added: either the manager's join drops the post, or the post has one
    row before, at least one after, and the count is its number of
    likes. *)
Lemma manager_rows (db : DB) (m : PostManager) (k : Z) :
  joins_no_likes m = true ->
  List.NoDup (post_tags db) ->
  let rows := rows_of (post_related db) (manager_joins m) k in
  let joins' := add_join RLikes (manager_joins m) in
  let rows' := rows_of (post_related db) joins' k in
  (rows = [] /\ rows' = [])
  \/ ((exists x, rows = [x]) /\ rows' <> []
      /\ Count RLikes false joins' rows' = number_of_likes db k).
Proof.
  intros Hm Hn. cbv zeta.
  assert (Hplain :
    manager_joins m = [] ->
    (rows_of (post_related db) (manager_joins m) k = []
     /\ rows_of (post_related db) (add_join RLikes (manager_joins m)) k = [])
    \/ ((exists x, rows_of (post_related db) (manager_joins m) k = [x])
        /\ rows_of (post_related db) (add_join RLikes (manager_joins m)) k <> []
        /\ Count RLikes false (add_join RLikes (manager_joins m))
             (rows_of (post_related db) (add_join RLikes (manager_joins m)) k)
           = number_of_likes db k)).
  { intros ->. right.
    change (add_join RLikes []) with [mkJoin RLikes None].
    split; [now exists [] |]. split.
    - apply rows_of_single_outer_nonempty.
    - rewrite Count_single_outer. apply number_of_likes_related. }
  destruct m as [| u | t | u | rel ids];
    [now apply Hplain | discriminate Hm | | now apply Hplain | discriminate Hm].
  change (manager_joins (posts_of_tag t)) with [mkJoin RTags (Some [t])].
  change (add_join RLikes [mkJoin RTags (Some [t])])
    with [mkJoin RTags (Some [t]); mkJoin RLikes None].
  rewrite !(rows_of_cons _ (mkJoin RTags (Some [t]))).
  destruct (tag_column_at_most_one db k t Hn) as [-> | ->].
  - left. split; reflexivity.
  - right. cbn [flat_map]. rewrite !app_nil_r.
    split; [now eexists |]. split.
    + intros H. apply map_eq_nil in H.
      now apply rows_of_single_outer_nonempty in H.
    + unfold Count. cbn [join_index join_rel].
      rewrite decide_False by discriminate. rewrite decide_True by reflexivity.
      cbn [fmap option_fmap option_map]. unfold count_column.
      rewrite column_values_cons.
      pose proof (Count_single_outer (post_related db) RLikes k false) as HC.
      unfold Count in HC. cbn [join_index join_rel] in HC.
      rewrite decide_True in HC by reflexivity. unfold count_column in HC.
      rewrite HC. apply number_of_likes_related.
Qed.

(** What one post contributes to the result, with and without
    [popular()]: the same objects up to the attached count. *)
Lemma post_group_likes_shape (db : DB) (q : PostQuery) (r : Post) :
  joins_no_likes (q_manager q) = true ->
  q_comments_count q = false ->
  List.NoDup (post_tags db) ->
  exists authors : list (option User),
    post_group db (PostQuerySet.popular q) r
    = map (fun a => mkPostObj r (Some (number_of_likes db (post_id r))) None a None) authors
    /\ post_group db q r
       = map (fun a => mkPostObj r
                         (if q_likes_count q then Some (number_of_likes db (post_id r)) else None)
                         None a None) authors.
Proof.
  intros Hm Hc Hn.
  pose proof (manager_rows db (q_manager q) (post_id r) Hm Hn) as Hrows. cbv zeta in Hrows.
  destruct q as [m ids lc cc ob sel pf].
  cbn [q_manager q_likes_count q_comments_count] in *. subst cc.
  unfold post_group, post_joins.
  cbn [PostQuerySet.popular order_by annotate_likes_count q_manager q_likes_count
       q_comments_count q_select_related_author q_id_in q_order_by q_prefetch_tags orb].
  destruct Hrows as [[H0 H1] | [[x H0] [H1 HC]]].
  - exists []. destruct lc; cbn [orb]; rewrite ?H0, ?H1;
      destruct sel; try destruct (List.find _ _); split; reflexivity.
  - exists (if sel
            then match List.find (fun u => user_id u =? post_author_id r) (users db) with
                 | Some u => [Some u]
                 | None => []
                 end
            else [None]).
    destruct lc; cbn [orb]; rewrite ?HC, ?H0;
      (destruct (rows_of (post_related db) (add_join RLikes (manager_joins m)) (post_id r));
       [congruence |]);
      destruct sel; try destruct (List.find _ _); split; reflexivity.
Qed.

Lemma post_group_popular_rows (db : DB) (q : PostQuery) (r : Post) :
  joins_no_likes (q_manager q) = true ->
  q_comments_count q = false ->
  List.NoDup (post_tags db) ->
  map p_row (post_group db (PostQuerySet.popular q) r) = map p_row (post_group db q r).
Proof.
  intros Hm Hc Hn.
  destruct (post_group_likes_shape db q r Hm Hc Hn) as (authors & -> & ->).
  rewrite !map_map. reflexivity.
Qed.

Lemma post_group_popular_count (db : DB) (q : PostQuery) (r : Post) (o : PostObj) :
  joins_no_likes (q_manager q) = true ->
  q_comments_count q = false ->
  List.NoDup (post_tags db) ->
  In o (post_group db (PostQuerySet.popular q) r) ->
  p_likes_count o = Some (number_of_likes db (p_id o)).
Proof.
  intros Hm Hc Hn Ho.
  destruct (post_group_likes_shape db q r Hm Hc Hn) as (authors & H & _).
  rewrite H in Ho. apply in_map_iff in Ho as (a & <- & _). reflexivity.
Qed.

(** The prefetch keeps the rows, the counts and the order of the posts. *)
Lemma prefetch_tags_rows (db : DB) (l : list PostObj) :
  map p_row (prefetch_tags db l) = map p_row l.
Proof. unfold prefetch_tags. rewrite map_map. reflexivity. Qed.

Lemma prefetch_tags_In (db : DB) (l : list PostObj) (o : PostObj) :
  In o (prefetch_tags db l) ->
  exists o', In o' l /\ p_row o = p_row o' /\ p_likes_count o = p_likes_count o'
             /\ p_comments_count o = p_comments_count o' /\ p_author o = p_author o'.
Proof.
  unfold prefetch_tags. intros H. apply in_map_iff in H as (o' & <- & Ho').
  exists o'. repeat split; assumption.
Qed.

Lemma prefetch_tags_descending (db : DB) (l : list PostObj) :
  descending likes_key l -> descending likes_key (prefetch_tags db l).
Proof. unfold prefetch_tags. apply descending_map. reflexivity. Qed.


Lemma sample_post_tags_NoDup : List.NoDup (post_tags sample_db).
Proof.
  simpl. repeat constructor; simpl; intuition discriminate.
Qed.



(** A filter across another relation multiplies the count instead: post
    1 bears the tags 1 and 2 and has two likes, and
    [Post.objects.filter(tags__in=[1, 2]).popular()] gives it
    [likes_count = 4]. *)
Example PostQuerySet_popular_after_filter_across_tags :
  map (fun o => (p_id o, p_likes_count o))
      (run_posts sample_db
         (PostQuerySet.popular (manager_query (Post_objects_filter RTags [1; 2]))))
  = [(1, Some 4%nat); (2, Some 1%nat); (3, Some 0%nat)]
  /\ number_of_likes sample_db 1 = 2%nat.
Proof. split; reflexivity. Qed.

(** ** [PostQuerySet.prefetch_with_tags_and_authors] *)

(** C8.  On the posts of the tag "django" (post 1 alone), the prefetch
    loads the author and both tags of the post, but the tag "python"
    comes with [posts_count = 1], the number of posts of the batch that
    bear it, while three posts bear it. *)
Theorem prefetch_with_tags_and_authors_counts_within_batch :
  map (fun o => (p_id o, username <$> p_author o, p_tags o))
      (run_posts sample_db
         (PostQuerySet.prefetch_with_tags_and_authors (manager_query (posts_of_tag 2))))
  = [(1, Some "ann",
      Some [mkTagObj (Some 2) "django" (Some 1%nat);
            mkTagObj (Some 1) "python" (Some 1%nat)])]
  /\ number_of_posts sample_db 1 = 3%nat
  /\ number_of_posts sample_db 2 = 1%nat.
Proof. repeat split. Qed.

(** The count that a prefetched tag carries, in general: the rows of a
    tag are grouped by the post selected from the first join, and each
    group holds one row per post of the batch that bears the tag. *)
Lemma tag_posts_NoDup (db : DB) (tid : Z) :
  List.NoDup (post_tags db) -> List.NoDup (tag_related db RPosts tid).
Proof.
  unfold tag_related. induction (post_tags db) as [| [p t] l IH]; simpl; intros Hn.
  - constructor.
  - apply List.NoDup_cons_iff in Hn as [Hx Hl].
    destruct (t =? tid) eqn:E; simpl; [| now apply IH].
    constructor; [| now apply IH].
    intros Hin. apply in_map_iff in Hin as ([p' t'] & Hp & Hf). simpl in Hp. subst p'.
    apply filter_In in Hf as [Hf Ht]. apply Z.eqb_eq in E, Ht. subst. contradiction.
Qed.

Lemma NoDup_map_Some (l : list Z) : List.NoDup l -> List.NoDup (map Some l).
Proof.
  induction 1 as [| x l Hx Hl IH]; simpl; constructor; [| exact IH].
  intros Hin. apply in_map_iff in Hin as (y & [= ->] & Hy). contradiction.
Qed.

Lemma filter_head_map (v u : option Z) (R : list (list (option Z))) :
  filter (fun row : list (option Z) => row !! 0%nat = Some v) (map (cons u) R)
  = if decide (u = v) then map (cons u) R else [].
Proof.
  induction R as [| r R IH]; simpl.
  - now destruct (decide (u = v)).
  - rewrite filter_cons, IH. simpl.
    destruct (decide (u = v)) as [-> | Hne].
    + now rewrite decide_True.
    + rewrite decide_False; [reflexivity | congruence].
Qed.

Lemma filter_head_absent (v : option Z) (col : list (option Z))
      (R : list (list (option Z))) :
  ~ In v col ->
  filter (fun row : list (option Z) => row !! 0%nat = Some v)
    (flat_map (fun u => map (cons u) R) col) = [].
Proof.
  induction col as [| u col IH]; simpl; intros Hn.
  - reflexivity.
  - rewrite filter_app, filter_head_map, decide_False by (intros ->; tauto).
    apply IH. tauto.
Qed.

Lemma filter_head_flat_map (v : option Z) (col : list (option Z))
      (R : list (list (option Z))) :
  List.NoDup col -> In v col ->
  filter (fun row : list (option Z) => row !! 0%nat = Some v)
    (flat_map (fun u => map (cons u) R) col) = map (cons v) R.
Proof.
  induction 1 as [| u col Hu Hn IH]; intros Hv; [contradiction |].
  simpl. rewrite filter_app, filter_head_map. destruct Hv as [-> | Hv].
  - rewrite decide_True by reflexivity.
    now rewrite filter_head_absent, app_nil_r.
  - rewrite decide_False by (intros ->; contradiction). now apply IH.
Qed.

Lemma column_values_head (p : Z) (R : list (list (option Z))) :
  length (column_values 0 (map (cons (Some p)) R)) = length R.
Proof.
  unfold column_values. induction R as [| r R IH]; simpl.
  - reflexivity.
  - f_equal. exact IH.
Qed.

Lemma prefetch_tag_group_count (db : DB) (batch : list Z) (t : Tag)
      (v : option Z) (o : TagObj) :
  List.NoDup (post_tags db) ->
  In (v, o) (prefetch_tag_group db batch t) ->
  t_id o = Some (tag_id t)
  /\ t_posts_count o = Some (posts_in_batch db batch (tag_id t)).
Proof.
  intros Hn Hin. unfold prefetch_tag_group in Hin.
  apply in_map_iff in Hin as (v' & Hvo & Hkey). injection Hvo as -> <-.
  split; [reflexivity |]. cbn [t_posts_count]. f_equal.
  apply list_elem_of_In, elem_of_remove_dups, list_elem_of_omap in Hkey
    as (row & Hrow & Hhead).
  apply list_elem_of_In in Hrow.
  unfold prefetch_tag_joins in *. rewrite rows_of_cons in Hrow |- *.
  set (R := rows_of (tag_related db) [mkJoin RPosts (Some batch)] (tag_id t)) in *.
  set (col := join_column (tag_related db) (tag_id t) (mkJoin RPosts None)) in *.
  apply in_flat_map in Hrow as (u & Hu & Hr).
  apply in_map_iff in Hr as (r & <- & Hr). simpl in Hhead. injection Hhead as ->.
  assert (Hcol : List.NoDup col /\ exists p, v = Some p).
  { subst col. unfold join_column in *. cbn [join_in join_rel] in *.
    pose proof (tag_posts_NoDup db (tag_id t) Hn) as Hnd.
    destruct (tag_related db RPosts (tag_id t)) as [| x l] eqn:E.
    - exfalso. subst R. unfold rows_of, join_column in Hr.
      cbn [map join_in join_rel] in Hr. rewrite E in Hr. exact Hr.
    - split.
      + now apply NoDup_map_Some.
      + apply in_map_iff in Hu as (p & <- & _). eauto. }
  destruct Hcol as (Hnd & p & ->).
  rewrite (filter_head_flat_map (Some p) col R Hnd Hu).
  unfold Count. cbn [join_index join_rel]. rewrite decide_True by reflexivity.
  unfold count_column. rewrite column_values_head.
  subst R. unfold rows_of. cbn [map]. rewrite join_rows_single, length_map.
  unfold join_column. cbn [join_in join_rel]. now rewrite length_map.
Qed.

(** Every tag that [prefetch_with_tags_and_authors()] hands to a post
    carries the number of posts of the loaded batch that bear it. *)
Lemma prefetched_tag_counts_batch (db : DB) (q : PostQuery) (o : PostObj)
      (ts : list TagObj) (t : TagObj) :
  List.NoDup (post_tags db) ->
  In o (run_posts db (PostQuerySet.prefetch_with_tags_and_authors q)) ->
  p_tags o = Some ts -> In t ts ->
  exists k, t_id t = Some k
            /\ t_posts_count t
               = Some (posts_in_batch db
                         (map p_id (select_posts db
                                      (PostQuerySet.prefetch_with_tags_and_authors q))) k).
Proof.
  intros Hn Ho Hts Ht. unfold run_posts in Ho.
  change (q_prefetch_tags (PostQuerySet.prefetch_with_tags_and_authors q)) with true in Ho.
  cbn match in Ho. unfold prefetch_tags in Ho.
  apply in_map_iff in Ho as (o' & <- & _). cbn [p_tags] in Hts. injection Hts as <-.
  apply in_map_iff in Ht as ([v t'] & <- & Hvt).
  apply list_elem_of_In, list_elem_of_filter in Hvt as [_ Hvt].
  apply list_elem_of_In in Hvt. unfold prefetch_tag_rows in Hvt.
  apply in_flat_map in Hvt as (r & _ & Hr).
  destruct (prefetch_tag_group_count db _ r v t' Hn Hr) as [Hid Hc].
  exists (tag_id r). auto.
Qed.

(** ** [PostQuerySet.fetch_with_comments_count] *)

(** *** The mapping from ids to counts *)

Lemma dict_foldl_lookup (f : Z -> nat) (pairs : list (Z * nat)) (m : gmap Z nat) (k : Z) :
  (forall kv, In kv pairs -> kv.2 = f kv.1) ->
  foldl (fun m kv => <[kv.1 := kv.2]> m) m pairs !! k
  = if existsb (Z.eqb k) (map fst pairs) then Some (f k) else m !! k.
Proof.
  revert m. induction pairs as [| [k0 v0] pairs IH]; intros m Hf; simpl.
  - reflexivity.
  - rewrite IH by (intros kv Hkv; apply Hf; now right).
    destruct (existsb (Z.eqb k) (map fst pairs)); simpl.
    + now rewrite orb_true_r.
    + rewrite orb_false_r. destruct (k =? k0) eqn:E.
      * apply Z.eqb_eq in E. subst k0. rewrite lookup_insert_eq.
        f_equal. apply (Hf (k, v0)). now left.
      * apply Z.eqb_neq in E. now rewrite lookup_insert_ne by congruence.
Qed.

Lemma existsb_eqb_In (k : Z) (l : list Z) : existsb (Z.eqb k) l = true <-> In k l.
Proof.
  rewrite existsb_exists. split.
  - intros (x & Hx & E). apply Z.eqb_eq in E. now subst.
  - intros H. exists k. split; [exact H | apply Z.eqb_refl].
Qed.

(** The query behind [count_for_id]: one object per post of the table
    whose id is asked for, carrying the number of its distinct comments. *)
Lemma count_query_group (db : DB) (ids : list Z) (r : Post) :
  post_group db (annotate_comments_count (filter_id_in ids (manager_query Post_objects))) r
  = [mkPostObj r None (Some (distinct_comments db (post_id r))) None None].
Proof.
  unfold post_group, post_joins.
  cbn [annotate_comments_count filter_id_in manager_query q_manager q_likes_count
       q_comments_count q_select_related_author orb manager_joins].
  change (add_join RComments []) with [mkJoin RComments None].
  rewrite Count_single_outer.
  destruct (rows_of (post_related db) [mkJoin RComments None] (post_id r)) eqn:E.
  - now apply rows_of_single_outer_nonempty in E.
  - reflexivity.
Qed.

Lemma count_query_where (ids : list Z) (r : Post) :
  post_where (annotate_comments_count (filter_id_in ids (manager_query Post_objects))) r
  = existsb (Z.eqb (post_id r)) ids.
Proof. unfold post_where. simpl. now rewrite andb_true_r. Qed.

Lemma count_query_In (db : DB) (ids : list Z) (o : PostObj) :
  In o (select_posts db
          (annotate_comments_count (filter_id_in ids (manager_query Post_objects))))
  <-> exists r, In r (posts db) /\ In (post_id r) ids
                /\ o = mkPostObj r None (Some (distinct_comments db (post_id r))) None None.
Proof.
  unfold select_posts. rewrite sort_by_In, in_flat_map. split.
  - intros (r & Hr & Ho). apply filter_In in Hr as [Hr Hw].
    rewrite count_query_where, existsb_eqb_In in Hw.
    rewrite count_query_group in Ho. destruct Ho as [<- | []]. eauto.
  - intros (r & Hr & Hid & ->). exists r. split.
    + apply filter_In. split; [exact Hr |].
      now rewrite count_query_where, existsb_eqb_In.
    + rewrite count_query_group. now left.
Qed.

(** [count_for_id] has exactly the ids that were asked for and are in the
    table, each mapped to the number of distinct comments of that post. *)
Lemma count_for_id_lookup (db : DB) (ids : list Z) (k : Z) :
  (In k ids /\ (exists r, In r (posts db) /\ post_id r = k) ->
   PostQuerySet.count_for_id db ids !! k = Some (distinct_comments db k))
  /\ (~ (In k ids /\ exists r, In r (posts db) /\ post_id r = k) ->
      PostQuerySet.count_for_id db ids !! k = None).
Proof.
  unfold PostQuerySet.count_for_id, dict, values_list_id_comments_count.
  set (q := annotate_comments_count (filter_id_in ids (manager_query Post_objects))).
  rewrite (dict_foldl_lookup (distinct_comments db)).
  2:{ intros kv Hkv. apply in_map_iff in Hkv as (o & <- & Ho).
      apply count_query_In in Ho as (r & _ & _ & ->). reflexivity. }
  rewrite lookup_empty, map_map. cbn [fst].
  destruct (existsb (Z.eqb k) (map p_id (select_posts db q))) eqn:E.
  - split; [reflexivity |]. intros Hn. exfalso. apply Hn.
    apply existsb_eqb_In, in_map_iff in E as (o & <- & Ho).
    apply count_query_In in Ho as (r & Hr & Hid & ->). eauto.
  - split; [| reflexivity]. intros (Hid & r & Hr & <-).
    assert (In (post_id r) (map p_id (select_posts db q))) as Hin.
    { apply in_map_iff.
      exists (mkPostObj r None (Some (distinct_comments db (post_id r))) None None).
      split; [reflexivity |]. apply count_query_In. eauto. }
    apply existsb_eqb_In in Hin. congruence.
Qed.

(** *** The loop over the posts *)

Lemma set_comments_count_id (n : nat) (post : PostObj) :
  p_id (set_comments_count n post) = p_id post.
Proof. reflexivity. Qed.

Lemma with_count_id (counts : gmap Z nat) (post : PostObj) :
  p_id (with_count counts post) = p_id post.
Proof. unfold with_count. now destruct (counts !! p_id post). Qed.

Lemma with_count_set (counts : gmap Z nat) (n : nat) (post : PostObj) :
  counts !! p_id post = Some n ->
  with_count counts (set_comments_count n post) = set_comments_count n post
  /\ with_count counts post = set_comments_count n post.
Proof.
  intros H. unfold with_count. rewrite set_comments_count_id, H. split; reflexivity.
Qed.

Lemma with_count_same (counts : gmap Z nat) (post : PostObj) :
  same_but_comments_count (with_count counts post) post.
Proof.
  unfold with_count, same_but_comments_count.
  destruct (counts !! p_id post); simpl; auto.
Qed.

(** One assignment [post.comments_count = n] in the heap. *)
Lemma lookup_after_assignment (h : list PostObj) (l0 l : nat) (n : nat) (post : PostObj) :
  h !! l0 = Some post ->
  <[l0 := set_comments_count n post]> h !! l
  = if decide (l = l0) then Some (set_comments_count n post) else h !! l.
Proof.
  intros H. destruct (decide (l = l0)) as [-> | Hne].
  - apply list_lookup_insert_eq. now apply lookup_lt_Some in H.
  - now apply list_lookup_insert_ne.
Qed.

Lemma attach_counts_cons (counts : gmap Z nat) (l : nat) (rest : list nat) (h : list PostObj) :
  PostQuerySet.attach_counts counts (l :: rest) h
  = match h !! l with
    | Some post =>
        match counts !! p_id post with
        | Some n =>
            PostQuerySet.attach_counts counts rest (<[l := set_comments_count n post]> h)
        | None => (h, Raise (KeyError (p_id post)))
        end
    | None => PostQuerySet.attach_counts counts rest h
    end.
Proof. reflexivity. Qed.

(** When every post of the loop has its id in the mapping, the loop
    runs to its end: it keeps the size of the heap, gives each post of
    the list its count and leaves every other object alone. *)
Lemma attach_counts_return (counts : gmap Z nat) (locs : list nat) (h : list PostObj) :
  (forall l post, In l locs -> h !! l = Some post -> is_Some (counts !! p_id post)) ->
  exists h' : list PostObj,
    PostQuerySet.attach_counts counts locs h = (h', Return tt)
    /\ length h' = length h
    /\ (forall l, In l locs -> h' !! l = with_count counts <$> h !! l)
    /\ (forall l, ~ In l locs -> h' !! l = h !! l).
Proof.
  revert h. induction locs as [| l0 rest IH]; intros h Hall;
    [| rewrite attach_counts_cons].
  - exists h. split; [reflexivity |]. split; [reflexivity |]. split; [intros l [] | auto].
  - destruct (h !! l0) as [post |] eqn:E0.
    + destruct (Hall l0 post (or_introl eq_refl) E0) as [n Hn]. rewrite Hn.
      destruct (with_count_set counts n post Hn) as [Hset Hwith].
      destruct (IH (<[l0 := set_comments_count n post]> h)) as (h' & Hrun & Hlen & Hin & Hout).
      { intros l p Hl Hp. rewrite (lookup_after_assignment h l0 l n post E0) in Hp.
        destruct (decide (l = l0)) as [-> | Hne].
        - injection Hp as <-. rewrite set_comments_count_id. eauto.
        - apply (Hall l p); [now right | exact Hp]. }
      exists h'. split; [exact Hrun |]. split; [now rewrite Hlen, length_insert |].
      split.
      * intros l Hl. destruct (in_dec Nat.eq_dec l rest) as [Hr | Hr].
        -- rewrite (Hin l Hr), (lookup_after_assignment h l0 l n post E0).
           destruct (decide (l = l0)) as [-> | Hne]; [| reflexivity].
           rewrite E0. simpl. now rewrite Hset, Hwith.
        -- destruct Hl as [<- | Hl]; [| contradiction].
           rewrite (Hout l0 Hr), (lookup_after_assignment h l0 l0 n post E0).
           rewrite decide_True by reflexivity. rewrite E0. simpl. now rewrite Hwith.
      * intros l Hl.
        assert (Hne : l <> l0) by (intros ->; apply Hl; now left).
        assert (Hr : ~ In l rest) by (intros ?; apply Hl; now right).
        rewrite (Hout l Hr), (lookup_after_assignment h l0 l n post E0).
        now rewrite decide_False.
    + destruct (IH h) as (h' & Hrun & Hlen & Hin & Hout).
      { intros l p Hl Hp. apply (Hall l p); [now right | exact Hp]. }
      exists h'. split; [exact Hrun |]. split; [exact Hlen |]. split.
      * intros l Hl. destruct (in_dec Nat.eq_dec l rest) as [Hr | Hr].
        -- now apply Hin.
        -- destruct Hl as [<- | Hl]; [| contradiction].
           rewrite (Hout l0 Hr), E0. reflexivity.
      * intros l Hl. apply Hout. intros ?. apply Hl. now right.
Qed.

(** The outcome of the loop tells whether an id was missing: it returns
    only if every post had its id in the mapping, and it raises only
    [KeyError], on the id of a post of the list that the mapping lacks. *)
Lemma attach_counts_outcome (counts : gmap Z nat) (locs : list nat) (h : list PostObj) :
  match (PostQuerySet.attach_counts counts locs h).2 with
  | Return _ =>
      forall l post, In l locs -> h !! l = Some post -> is_Some (counts !! p_id post)
  | Raise e =>
      exists l post, In l locs /\ h !! l = Some post
                     /\ counts !! p_id post = None /\ e = KeyError (p_id post)
  end.
Proof.
  revert h. induction locs as [| l0 rest IH]; intros h;
    [| rewrite attach_counts_cons].
  - intros l post [].
  - destruct (h !! l0) as [post |] eqn:E0.
    + destruct (counts !! p_id post) as [n |] eqn:En.
      * specialize (IH (<[l0 := set_comments_count n post]> h)).
        destruct (PostQuerySet.attach_counts counts rest
                    (<[l0 := set_comments_count n post]> h)) as [h' [u | e]]; simpl in *.
        -- intros l p [<- | Hl] Hp.
           ++ rewrite E0 in Hp. injection Hp as <-. eauto.
           ++ destruct (decide (l = l0)) as [-> | Hne].
              ** rewrite E0 in Hp. injection Hp as <-. eauto.
              ** apply (IH l p Hl).
                 rewrite (lookup_after_assignment h l0 l n post E0).
                 now rewrite decide_False.
        -- destruct IH as (l & p & Hl & Hp & Hnone & ->).
           rewrite (lookup_after_assignment h l0 l n post E0) in Hp.
           destruct (decide (l = l0)) as [-> | Hne].
           ++ injection Hp as <-. rewrite set_comments_count_id in Hnone. congruence.
           ++ exists l, p. auto.
      * simpl. exists l0, post. auto.
    + specialize (IH h).
      destruct (PostQuerySet.attach_counts counts rest h) as [h' [u | e]]; simpl in *.
      * intros l p [<- | Hl] Hp; [congruence | now apply (IH l p)].
      * destruct IH as (l & p & Hl & Hp & Hnone & ->). exists l, p. auto.
Qed.

(** *** Iterating the query set *)

Lemma iterate_iterated (db : DB) (h h1 : list PostObj) (self : PostQuerySetObj)
      (locs : list nat) :
  iterated db h self = (h1, locs) ->
  iterate db h self = (h1, mkQS (qs_query self) (Some locs), locs).
Proof.
  unfold iterated, iterate. destruct self as [q [c |]]; simpl; intros [= <- <-]; reflexivity.
Qed.

(** An evaluated query set is iterated without touching the heap, and
    yields the objects of its cache. *)
Lemma iterated_cached (db : DB) (h h1 : list PostObj) (self : PostQuerySetObj)
      (locs locs0 : list nat) :
  iterated db h self = (h1, locs) -> qs_result_cache self = Some locs0 ->
  h1 = h /\ locs = locs0 /\ mkQS (qs_query self) (Some locs) = self.
Proof.
  unfold iterated, iterate. destruct self as [q c]; simpl. intros H ->.
  injection H as <- <-. auto.
Qed.

Lemma post_ids_In (h : list PostObj) (locs : list nat) (l : nat) (post : PostObj) :
  In l locs -> h !! l = Some post -> In (p_id post) (PostQuerySet.post_ids h locs).
Proof.
  intros Hl Hp. unfold PostQuerySet.post_ids.
  apply list_elem_of_In, list_elem_of_omap. exists l. split.
  - now apply list_elem_of_In.
  - change (p_id <$> h !! l = Some (p_id post)). now rewrite Hp.
Qed.

Lemma fetch_unfold (db : DB) (h h1 : list PostObj) (self : PostQuerySetObj)
      (locs : list nat) :
  iterated db h self = (h1, locs) ->
  PostQuerySet.fetch_with_comments_count db h self
  = let '(h2, r) :=
      PostQuerySet.attach_counts
        (PostQuerySet.count_for_id db (PostQuerySet.post_ids h1 locs)) locs h1 in
    (h2, _ <- r ;; Return (mkQS (qs_query self) (Some locs))).
Proof.
  intros H. unfold PostQuerySet.fetch_with_comments_count.
  now rewrite (iterate_iterated db h h1 self locs H).
Qed.

(** The loop finds every id it asks for as soon as the posts are rows of
    the table. *)
Lemma fetch_when_posts_present
      (db : DB) (h h1 : list PostObj) (self : PostQuerySetObj) (locs : list nat) :
  iterated db h self = (h1, locs) ->
  (forall l post, In l locs -> h1 !! l = Some post ->
                  exists r, In r (posts db) /\ post_id r = p_id post) ->
  exists h2 : list PostObj,
    PostQuerySet.fetch_with_comments_count db h self
    = (h2, Return (mkQS (qs_query self) (Some locs)))
    /\ forall l post,
         In l locs -> h1 !! l = Some post ->
         h2 !! l = Some (set_comments_count (distinct_comments db (p_id post)) post).
Proof.
  intros Hit Hdb. rewrite (fetch_unfold db h h1 self locs Hit).
  set (counts := PostQuerySet.count_for_id db (PostQuerySet.post_ids h1 locs)).
  assert (Hcount : forall l post, In l locs -> h1 !! l = Some post ->
                     counts !! p_id post = Some (distinct_comments db (p_id post))).
  { intros l post Hl Hp. apply count_for_id_lookup. split.
    - now apply (post_ids_In h1 locs l).
    - now apply (Hdb l post). }
  destruct (attach_counts_return counts locs h1) as (h2 & Hrun & _ & Hin & _).
  { intros l post Hl Hp. rewrite (Hcount l post Hl Hp). eauto. }
  exists h2. rewrite Hrun. split; [reflexivity |].
  intros l post Hl Hp. rewrite (Hin l Hl), Hp. simpl. f_equal.
  unfold with_count. now rewrite (Hcount l post Hl Hp).
Qed.

(** C1. When every post of the query set is in the database,
    [fetch_with_comments_count()] returns, and every post it returns
    carries [comments_count] equal to the number of distinct comments
    that reference it; the post is otherwise as it was. *)
Theorem fetch_with_comments_count_attaches_counts
        (db : DB) (h h1 : list PostObj) (self : PostQuerySetObj) (locs : list nat) :
  iterated db h self = (h1, locs) ->
  (forall l post, In l locs -> h1 !! l = Some post ->
                  exists r, In r (posts db) /\ post_id r = p_id post) ->
  exists h2 : list PostObj,
    PostQuerySet.fetch_with_comments_count db h self
    = (h2, Return (mkQS (qs_query self) (Some locs)))
    /\ forall l post,
         In l locs -> h1 !! l = Some post ->
         exists post' : PostObj,
           h2 !! l = Some post'
           /\ p_comments_count post' = Some (distinct_comments db (p_id post))
           /\ same_but_comments_count post' post.
Proof.
  intros Hit Hdb.
  destruct (fetch_when_posts_present db h h1 self locs Hit Hdb) as (h2 & Hrun & Hcounts).
  exists h2. split; [exact Hrun |].
  intros l post Hl Hp. eexists. split; [exact (Hcounts l post Hl Hp) |].
  split; [reflexivity | repeat split].
Qed.

(** C2. [fetch_with_comments_count()] raises if and only if some post
    of the query set has an id that the computed mapping lacks; what it
    raises then is the [KeyError] of such an id, and nothing catches
    it. *)
Theorem fetch_with_comments_count_raises_iff_id_missing
        (db : DB) (h h1 : list PostObj) (self : PostQuerySetObj) (locs : list nat) :
  iterated db h self = (h1, locs) ->
  let counts := PostQuerySet.count_for_id db (PostQuerySet.post_ids h1 locs) in
  ((exists e, (PostQuerySet.fetch_with_comments_count db h self).2 = Raise e)
   <-> (exists l post, In l locs /\ h1 !! l = Some post /\ counts !! p_id post = None))
  /\ (forall e, (PostQuerySet.fetch_with_comments_count db h self).2 = Raise e ->
                exists k, e = KeyError k /\ counts !! k = None).
Proof.
  intros Hit counts. rewrite (fetch_unfold db h h1 self locs Hit). fold counts.
  pose proof (attach_counts_outcome counts locs h1) as Hout.
  destruct (PostQuerySet.attach_counts counts locs h1) as [h2 [u | e]]; simpl in *.
  - split.
    + split.
      * intros [e He]. discriminate.
      * intros (l & post & Hl & Hp & Hnone).
        destruct (Hout l post Hl Hp) as [n Hn]. congruence.
    + intros e He. discriminate.
  - destruct Hout as (l & post & Hl & Hp & Hnone & ->). split.
    + split; eauto 6.
    + intros e [= <-]. eauto.
Qed.

(** C10. When [fetch_with_comments_count()] returns, it returns the
    query set it was called on, holding the same objects in the same
    order; the heap has the same size, every object agrees with its
    former self on all but [comments_count], and an object that is not
    among the posts of the query set is not changed at all. *)
Theorem fetch_with_comments_count_frame
        (db : DB) (h h1 h2 : list PostObj) (self posts' : PostQuerySetObj)
        (locs : list nat) :
  iterated db h self = (h1, locs) ->
  PostQuerySet.fetch_with_comments_count db h self = (h2, Return posts') ->
  posts' = mkQS (qs_query self) (Some locs)
  /\ (forall locs0, qs_result_cache self = Some locs0 ->
                    posts' = self /\ locs = locs0 /\ h1 = h)
  /\ length h2 = length h1
  /\ (forall l post,
         h1 !! l = Some post ->
         exists post', h2 !! l = Some post'
                       /\ same_but_comments_count post' post
                       /\ (In l locs -> exists n, p_comments_count post' = Some n)
                       /\ (~ In l locs -> post' = post)).
Proof.
  intros Hit Hret. rewrite (fetch_unfold db h h1 self locs Hit) in Hret.
  set (counts := PostQuerySet.count_for_id db (PostQuerySet.post_ids h1 locs)) in Hret.
  pose proof (attach_counts_outcome counts locs h1) as Hout.
  destruct (attach_counts_return counts locs h1) as (h2' & Hrun & Hlen & Hin & Hnotin).
  { rewrite (surjective_pairing (PostQuerySet.attach_counts counts locs h1)) in Hret.
    destruct (PostQuerySet.attach_counts counts locs h1).2; [exact Hout | discriminate]. }
  rewrite Hrun in Hret. simpl in Hret. injection Hret as <- <-.
  split; [reflexivity |]. split.
  { intros locs0 H0. destruct (iterated_cached db h h1 self locs locs0 Hit H0) as (-> & -> & ->).
    auto. }
  split; [exact Hlen |].
  intros l post Hp. destruct (in_dec Nat.eq_dec l locs) as [Hl | Hl].
  - exists (with_count counts post). rewrite (Hin l Hl), Hp. split; [reflexivity |].
    split; [apply with_count_same |]. split; [| contradiction].
    intros _. rewrite (surjective_pairing (PostQuerySet.attach_counts counts locs h1)) in Hrun.
    assert (Hr : (PostQuerySet.attach_counts counts locs h1).2 = Return tt) by congruence.
    rewrite Hr in Hout. destruct (Hout l post Hl Hp) as [n Hn].
    exists n. unfold with_count. now rewrite Hn.
  - exists post. rewrite (Hnotin l Hl). split; [exact Hp |].
    split; [repeat split |]. split; [contradiction | reflexivity].
Qed.

(** *** Query sets that are evaluated by the call itself *)

Lemma post_group_row (db : DB) (q : PostQuery) (r : Post) (o : PostObj) :
  In o (post_group db q r) -> p_row o = r.
Proof.
  unfold post_group.
  set (rows := rows_of (post_related db) (post_joins q) (post_id r)).
  intros H.
  destruct (q_select_related_author q);
    [destruct (List.find _ (users db)); [| contradiction] |];
    (destruct (q_likes_count q || q_comments_count q);
     [destruct rows; [contradiction | destruct H as [<- | []]; reflexivity]
     | apply in_map_iff in H as (x & <- & _); reflexivity]).
Qed.

Lemma run_posts_row_In (db : DB) (q : PostQuery) (o : PostObj) :
  In o (run_posts db q) -> In (p_row o) (posts db).
Proof.
  assert (Hsel : forall o', In o' (select_posts db q) -> In (p_row o') (posts db)).
  { intros o' H. unfold select_posts in H. apply sort_by_In, in_flat_map in H as (r & Hr & Ho).
    apply filter_In in Hr as [Hr _]. now rewrite (post_group_row db q r o' Ho). }
  unfold run_posts. destruct (q_prefetch_tags q); [| apply Hsel].
  intros H. apply prefetch_tags_In in H as (o' & Ho' & -> & _). now apply Hsel.
Qed.

(** A query set that has not been evaluated loads its posts from the
    database the counts are taken from, so the call returns. *)
Lemma fetch_with_comments_count_unevaluated (db : DB) (h : list PostObj) (q : PostQuery) :
  exists h2 : list PostObj,
    PostQuerySet.fetch_with_comments_count db h (mkQS q None)
    = (h2, Return (mkQS q (Some (seq (length h) (length (run_posts db q)))))).
Proof.
  destruct (fetch_when_posts_present db h (h ++ run_posts db q) (mkQS q None)
              (seq (length h) (length (run_posts db q)))) as (h2 & Hrun & _).
  - reflexivity.
  - intros l post Hl Hp. apply in_seq in Hl as [Hge _].
    rewrite lookup_app_r in Hp by exact Hge.
    apply list_elem_of_lookup_2, list_elem_of_In, run_posts_row_In in Hp.
    exists (p_row post). split; [exact Hp | reflexivity].
  - exists h2. exact Hrun.
Qed.

(** *** Examples *)

Lemma sample_posts_present (l : nat) (post : PostObj) :
  In l (iterated sample_db [] sample_queryset).2 ->
  (iterated sample_db [] sample_queryset).1 !! l = Some post ->
  exists r, In r (posts sample_db) /\ post_id r = p_id post.
Proof.
  intros Hl Hp. simpl in Hl.
  destruct Hl as [<- | [<- | [<- | []]]]; injection Hp as <-;
    eexists; (split; [| reflexivity]); simpl; auto.
Qed.

Lemma fetch_with_comments_count_attaches_counts_witness :
  exists h2 : list PostObj,
    PostQuerySet.fetch_with_comments_count sample_db [] sample_queryset
    = (h2, Return (mkQS (qs_query sample_queryset)
                     (Some (iterated sample_db [] sample_queryset).2)))
    /\ forall l post,
         In l (iterated sample_db [] sample_queryset).2 ->
         (iterated sample_db [] sample_queryset).1 !! l = Some post ->
         exists post' : PostObj,
           h2 !! l = Some post'
           /\ p_comments_count post' = Some (distinct_comments sample_db (p_id post))
           /\ same_but_comments_count post' post.
Proof.
  apply (fetch_with_comments_count_attaches_counts sample_db []
           (iterated sample_db [] sample_queryset).1 sample_queryset
           (iterated sample_db [] sample_queryset).2).
  - reflexivity.
  - exact sample_posts_present.
Defined.

(** The sample posts get 0, 1 and 2 comments, in the order of the query
    set (latest post first). *)
Example fetch_with_comments_count_sample :
  (fun r => (map (fun o => (p_id o, p_comments_count o)) r.1, r.2))
    (PostQuerySet.fetch_with_comments_count sample_db [] sample_queryset)
  = ([(3, Some 0%nat); (2, Some 1%nat); (1, Some 2%nat)],
     Return (mkQS (manager_query Post_objects) (Some [0; 1; 2]%nat))).
Proof. vm_compute. reflexivity. Qed.

(** A query set that was evaluated before post 1 was deleted still holds
    the post; the mapping computed afterwards has no key 1, and the loop
    raises on it after it has handled posts 3 and 2. *)
Example fetch_with_comments_count_stale_cache :
  (fun r => (map (fun o => (p_id o, p_comments_count o)) r.1, r.2))
    (PostQuerySet.fetch_with_comments_count sample_db_without_post_1
       sample_loaded.1 sample_loaded.2)
  = ([(3, Some 0%nat); (2, Some 1%nat); (1, None)], Raise (KeyError 1)).
Proof. vm_compute. reflexivity. Qed.

Lemma fetch_with_comments_count_raises_iff_id_missing_witness :
  let counts :=
    PostQuerySet.count_for_id sample_db_without_post_1
      (PostQuerySet.post_ids sample_loaded.1 [0; 1; 2]%nat) in
  ((exists e,
       (PostQuerySet.fetch_with_comments_count sample_db_without_post_1
          sample_loaded.1 sample_loaded.2).2 = Raise e)
   <-> (exists l post, In l [0; 1; 2]%nat /\ sample_loaded.1 !! l = Some post
                       /\ counts !! p_id post = None))
  /\ (forall e,
         (PostQuerySet.fetch_with_comments_count sample_db_without_post_1
            sample_loaded.1 sample_loaded.2).2 = Raise e ->
         exists k, e = KeyError k /\ counts !! k = None).
Proof.
  apply (fetch_with_comments_count_raises_iff_id_missing sample_db_without_post_1
           sample_loaded.1 sample_loaded.1 sample_loaded.2 [0; 1; 2]%nat).
  reflexivity.
Defined.

Lemma fetch_with_comments_count_frame_witness :
  let h2 := (PostQuerySet.fetch_with_comments_count sample_db
               sample_loaded.1 sample_loaded.2).1 in
  let posts' := sample_loaded.2 in
  posts' = mkQS (qs_query sample_loaded.2) (Some [0; 1; 2]%nat)
  /\ (forall locs0, qs_result_cache sample_loaded.2 = Some locs0 ->
                    posts' = sample_loaded.2 /\ [0; 1; 2]%nat = locs0
                    /\ sample_loaded.1 = sample_loaded.1)
  /\ length h2 = length sample_loaded.1
  /\ (forall l post,
         sample_loaded.1 !! l = Some post ->
         exists post', h2 !! l = Some post'
                       /\ same_but_comments_count post' post
                       /\ (In l [0; 1; 2]%nat -> exists n, p_comments_count post' = Some n)
                       /\ (~ In l [0; 1; 2]%nat -> post' = post)).
Proof.
  apply (fetch_with_comments_count_frame sample_db sample_loaded.1 sample_loaded.1
           (PostQuerySet.fetch_with_comments_count sample_db
              sample_loaded.1 sample_loaded.2).1
           sample_loaded.2 sample_loaded.2 [0; 1; 2]%nat).
  - reflexivity.
  - vm_compute. reflexivity.
Defined.

(** * Further properties of the module *)

(** ** Validation of tags *)

Lemma Tag_unique_check (unicode : UnicodeData) (db : DB) (title : str) :
  existsb (fun r => bool_decide (tag_title r = t_title (Tag_clean unicode (Tag_new title)))
                    && negb (same_pk (t_id (Tag_clean unicode (Tag_new title))) r))
    (tags db) = true
  <-> exists r, In r (tags db) /\ tag_title r = str_lower unicode title.
Proof.
  rewrite existsb_exists. cbn [Tag_clean Tag_new t_title t_id same_pk negb].
  split; intros (r & Hr & H); exists r; split; try exact Hr.
  - rewrite andb_true_r in H. now apply bool_decide_eq_true in H.
  - rewrite andb_true_r. now apply bool_decide_eq_true.
Qed.

(** What [Tag_create_validated] does, case by case. *)
Lemma Tag_create_validated_cases (unicode : UnicodeData) (db : DB) (title : str) :
  let n := length title in
  ((n = 0 \/ Tag_title_max_length < n
    \/ exists r, In r (tags db) /\ tag_title r = str_lower unicode title)%nat
   /\ Tag_create_validated unicode db title = Raise (ValidationError "title"))
  \/ ((1 <= n <= Tag_title_max_length)%nat
      /\ (forall r, In r (tags db) -> tag_title r <> str_lower unicode title)
      /\ Tag_create_validated unicode db title
         = Return (with_tags db
                     (tags db ++ [mkTag (next_tag_id db) (str_lower unicode title)]),
                   mkTagObj (Some (next_tag_id db)) (str_lower unicode title) None)).
Proof.
  cbv zeta. unfold Tag_create_validated, Tag_full_clean, Tag_clean_fields, Tag_validate_unique.
  cbn [t_title Tag_new].
  destruct (length title =? 0)%nat eqn:E0.
  { left. apply Nat.eqb_eq in E0. split; [now left | reflexivity]. }
  destruct (Tag_title_max_length <? length title)%nat eqn:E1.
  { left. apply Nat.ltb_lt in E1. split; [right; now left | reflexivity]. }
  apply Nat.eqb_neq in E0. apply Nat.ltb_ge in E1. cbn [bind].
  destruct (existsb _ (tags db)) eqn:E2.
  - left. apply Tag_unique_check in E2. split; [right; now right | reflexivity].
  - right. split; [lia |]. split; [| reflexivity].
    intros r Hr Heq.
    assert (H : exists r, In r (tags db) /\ tag_title r = str_lower unicode title)
      by eauto.
    apply Tag_unique_check in H. congruence.
Qed.

(** X1. Whatever the character database, creating a tag through
    validation is rejected exactly when the title is blank, longer than
    20 characters, or equal, once lowercased, to a title that is already
    stored; what is raised then is the validation error of the field
    [title]. *)
Theorem Tag_create_validated_rejects_iff (unicode : UnicodeData) (db : DB) (title : str) :
  ((exists e, Tag_create_validated unicode db title = Raise e)
   <-> (length title = 0 \/ 20 < length title
        \/ exists r, In r (tags db) /\ tag_title r = str_lower unicode title)%nat)
  /\ (forall e, Tag_create_validated unicode db title = Raise e
                -> e = ValidationError "title").
Proof.
  destruct (Tag_create_validated_cases unicode db title)
    as [[Hc Hr] | (Hlen & Hfree & Hr)]; cbv zeta in *; rewrite Hr.
  - split; [split; [intros _; exact Hc | eauto] | intros e [= <-]; reflexivity].
  - split; [split | intros e [=]].
    + intros [e [=]].
    + unfold Tag_title_max_length in Hlen.
      intros [H | [H | (r & Hin & Heq)]]; [lia | lia | now elim (Hfree r Hin)].
Qed.

(** The length is counted in characters, and before [clean()] lowercases:
    a title of eleven two-byte characters passes, and the lowercase of
    twenty capital I with dot above is stored with forty characters. *)
Example Tag_create_validated_counts_characters :
  (exists r, Tag_create_validated sample_unicode sample_db (repeat 0xE9%N 11) = Return r)
  /\ (exists db' t', Tag_create_validated sample_unicode sample_db (repeat 0x130%N 20)
                     = Return (db', t')
                     /\ length (t_title t') = 40%nat).
Proof. split; [eexists | eexists _, _; split]; reflexivity. Qed.

(** X2. Creating a tag through validation keeps the table of tags
    valid: if the stored titles were not blank, free of characters that
    lowercasing would change and pairwise different, and the ids
    pairwise different, they still are afterwards; the title given had
    between 1 and 20 characters, the new row is appended with the
    lowercased title and no other table changes. *)
Theorem Tag_create_validated_keeps_valid
        (unicode : UnicodeData) (db db' : DB) (title : str) (t' : TagObj) :
  unicode_data_ok unicode ->
  tags_valid unicode db ->
  Tag_create_validated unicode db title = Return (db', t') ->
  tags_valid unicode db'
  /\ (1 <= length title <= 20)%nat
  /\ (exists k, t_id t' = Some k
                /\ tags db' = tags db ++ [mkTag k (str_lower unicode title)])
  /\ users db' = users db /\ posts db' = posts db /\ comments db' = comments db
  /\ post_likes db' = post_likes db /\ post_tags db' = post_tags db.
Proof.
  intros ok (Htitles & Hids & Hrows) Hrun.
  destruct (Tag_create_validated_cases unicode db title)
    as [[_ Hr] | (Hlen & Hfree & Hr)];
    cbv zeta in *; rewrite Hr in Hrun; [discriminate |].
  injection Hrun as <- <-. cbn [tags users posts comments post_likes post_tags with_tags t_id].
  split; [| split; [exact Hlen | split; [eauto | repeat split]]].
  unfold tags_valid. cbn [tags with_tags]. rewrite !map_app. cbn [map tag_title tag_id].
  split; [| split].
  - apply NoDup_ListNoDup, NoDup_app.
    split; [now apply NoDup_ListNoDup |]. split; [| apply NoDup_singleton].
    intros s Hs Hin. apply list_elem_of_In in Hs. apply list_elem_of_In in Hin.
    destruct Hin as [<- | []]. apply in_map_iff in Hs as (r & Heq & Hr'). now elim (Hfree r Hr').
  - apply NoDup_ListNoDup, NoDup_app.
    split; [now apply NoDup_ListNoDup |]. split; [| apply NoDup_singleton].
    intros k Hk Hin. apply list_elem_of_In in Hk. apply list_elem_of_In in Hin.
    destruct Hin as [<- | []]. apply in_map_iff in Hk as (r & Heq & Hr').
    apply (next_tag_id_above db) in Hr'. lia.
  - apply List.Forall_app. split; [exact Hrows |]. constructor; [| constructor].
    cbn [tag_title]. split.
    + apply (str_lower_not_blank unicode ok). intros ->. cbn [length] in Hlen. lia.
    + apply (str_lower_is_lower unicode ok).
Qed.

Lemma sample_is_lower (s : str) :
  forallb (fun c => (c <? 128)%N && negb (in_range 0x41 0x5A c)) s = true ->
  Forall (is_lower sample_unicode) s.
Proof.
  rewrite forallb_forall. intros H. apply List.Forall_forall. intros c Hc.
  apply H in Hc. apply andb_true_iff in Hc as [Hlt Hr].
  apply N.ltb_lt in Hlt. apply negb_true_iff, in_range_false in Hr.
  split; [| apply sample_lower_fixed]; unfold capital_sigma; lia.
Qed.

Lemma sample_tags_valid : tags_valid sample_unicode sample_db.
Proof.
  unfold tags_valid. cbn [tags sample_db map tag_title tag_id]. split; [| split].
  - repeat constructor; cbn [In]; intuition discriminate.
  - repeat constructor; cbn [In]; intuition discriminate.
  - apply List.Forall_cons; [| apply List.Forall_cons; [| apply List.Forall_nil]];
      (split; [discriminate | apply sample_is_lower; reflexivity]).
Qed.

Lemma Tag_create_validated_keeps_valid_witness :
  tags_valid sample_unicode (with_tags sample_db (tags sample_db ++ [mkTag 3 "rocq"]))
  /\ (1 <= length (str_of_ascii "Rocq") <= 20)%nat
  /\ (exists k, t_id (mkTagObj (Some 3) "rocq" None) = Some k
                /\ tags (with_tags sample_db (tags sample_db ++ [mkTag 3 "rocq"]))
                   = tags sample_db ++ [mkTag k (str_lower sample_unicode "Rocq")])
  /\ users (with_tags sample_db (tags sample_db ++ [mkTag 3 "rocq"])) = users sample_db
  /\ posts (with_tags sample_db (tags sample_db ++ [mkTag 3 "rocq"])) = posts sample_db
  /\ comments (with_tags sample_db (tags sample_db ++ [mkTag 3 "rocq"])) = comments sample_db
  /\ post_likes (with_tags sample_db (tags sample_db ++ [mkTag 3 "rocq"]))
     = post_likes sample_db
  /\ post_tags (with_tags sample_db (tags sample_db ++ [mkTag 3 "rocq"]))
     = post_tags sample_db.
Proof.
  apply (Tag_create_validated_keeps_valid sample_unicode sample_db _ "Rocq").
  - exact sample_unicode_ok.
  - exact sample_tags_valid.
  - reflexivity.
Defined.

(** ** Deleting posts and users *)

Lemma existsb_filter {A} (f keep : A -> bool) (l : list A) :
  (forall x, In x l -> f x = true -> keep x = true) ->
  existsb f l = true -> existsb f (List.filter keep l) = true.
Proof.
  intros H Hex. apply existsb_exists in Hex as (x & Hx & Hf).
  apply existsb_exists. exists x. split; [| exact Hf].
  apply filter_In. split; [exact Hx | now apply H].
Qed.

Lemma forallb_filter {A} (f g keep : A -> bool) (l : list A) :
  (forall x, In x l -> keep x = true -> f x = true -> g x = true) ->
  forallb f l = true -> forallb g (List.filter keep l) = true.
Proof.
  intros H Hall. rewrite forallb_forall in Hall. apply forallb_forall.
  intros x Hx. apply filter_In in Hx as [Hx Hk]. apply H; auto.
Qed.

Lemma filter_all {A} (keep : A -> bool) (l : list A) :
  (forall x, In x l -> keep x = true) -> List.filter keep l = l.
Proof.
  induction l as [| x l IH]; simpl; intros H.
  - reflexivity.
  - rewrite (H x) by now left. f_equal. apply IH. intros y Hy. apply H. now right.
Qed.

Lemma consistent_parts (db : DB) :
  consistent db = true <->
  forallb (fun p => has_user db (post_author_id p)) (posts db) = true
  /\ forallb (fun c => has_post db (comment_post_id c) && has_user db (comment_author_id c))
       (comments db) = true
  /\ forallb (fun '(p, u) => has_post db p && has_user db u) (post_likes db) = true
  /\ forallb (fun '(p, t) => has_post db p && has_tag db t) (post_tags db) = true.
Proof. unfold consistent. rewrite !andb_true_iff. tauto. Qed.

Lemma Post_delete_eq (db : DB) (pid : Z) :
  Post_delete db pid
  = Return (mkDB (users db)
              (List.filter (fun r => negb (post_id r =? pid)) (posts db))
              (tags db)
              (List.filter (fun c => negb (comment_post_id c =? pid)) (comments db))
              (List.filter (fun '(p, _) => negb (p =? pid)) (post_likes db))
              (List.filter (fun '(p, _) => negb (p =? pid)) (post_tags db))).
Proof. reflexivity. Qed.

Lemma has_post_after_delete (db : DB) (pid k : Z) :
  k <> pid -> has_post db k = true ->
  existsb (fun p => post_id p =? k)
    (List.filter (fun r => negb (post_id r =? pid)) (posts db)) = true.
Proof.
  intros Hne. apply existsb_filter. intros p _ Hp.
  apply Z.eqb_eq in Hp. apply negb_true_iff, Z.eqb_neq. congruence.
Qed.

(** X3. Deleting a post keeps the database referentially consistent
    and touches nothing but the post and what hangs on it: users and
    tags are unchanged, exactly the other posts remain, and exactly the
    like rows and tag rows of other posts remain. *)
Theorem Post_delete_keeps_consistent (db : DB) (pid : Z) :
  consistent db = true ->
  exists db' : DB,
    Post_delete db pid = Return db'
    /\ consistent db' = true
    /\ users db' = users db /\ tags db' = tags db
    /\ (forall r, In r (posts db') <-> In r (posts db) /\ post_id r <> pid)
    /\ (forall x, In x (post_likes db') <-> In x (post_likes db) /\ x.1 <> pid)
    /\ (forall x, In x (post_tags db') <-> In x (post_tags db) /\ x.1 <> pid).
Proof.
  intros Hc. apply consistent_parts in Hc as (Hp & Hcm & Hl & Ht).
  eexists. split; [apply Post_delete_eq |]. cbn [users posts tags comments post_likes post_tags].
  split.
  - apply consistent_parts. unfold has_user, has_post, has_tag.
    cbn [users posts tags comments post_likes post_tags]. repeat split.
    + eapply forallb_filter; [| exact Hp]. auto.
    + eapply forallb_filter; [| exact Hcm]. intros c _ Hk H.
      apply andb_true_iff in H as [H1 H2]. apply andb_true_iff. split; [| exact H2].
      apply has_post_after_delete; [| exact H1]. now apply negb_true_iff, Z.eqb_neq in Hk.
    + eapply forallb_filter; [| exact Hl]. intros [p u] _ Hk H.
      apply andb_true_iff in H as [H1 H2]. apply andb_true_iff. split; [| exact H2].
      apply has_post_after_delete; [| exact H1]. now apply negb_true_iff, Z.eqb_neq in Hk.
    + eapply forallb_filter; [| exact Ht]. intros [p t] _ Hk H.
      apply andb_true_iff in H as [H1 H2]. apply andb_true_iff. split; [| exact H2].
      apply has_post_after_delete; [| exact H1]. now apply negb_true_iff, Z.eqb_neq in Hk.
  - split; [reflexivity |]. split; [reflexivity |]. repeat split.
    + now apply filter_In in H.
    + apply filter_In in H as [_ H]. now apply negb_true_iff, Z.eqb_neq in H.
    + intros [H1 H2]. apply filter_In. split; [exact H1 |]. now apply negb_true_iff, Z.eqb_neq.
    + now apply filter_In in H.
    + destruct x as [p u]. apply filter_In in H as [_ H].
      now apply negb_true_iff, Z.eqb_neq in H.
    + destruct x as [p u]. intros [H1 H2]. apply filter_In. split; [exact H1 |].
      now apply negb_true_iff, Z.eqb_neq.
    + now apply filter_In in H.
    + destruct x as [p u]. apply filter_In in H as [_ H].
      now apply negb_true_iff, Z.eqb_neq in H.
    + destruct x as [p u]. intros [H1 H2]. apply filter_In. split; [exact H1 |].
      now apply negb_true_iff, Z.eqb_neq.
Qed.

Lemma Post_delete_keeps_consistent_witness :
  exists db' : DB,
    Post_delete sample_db 1 = Return db'
    /\ consistent db' = true
    /\ users db' = users sample_db /\ tags db' = tags sample_db
    /\ (forall r, In r (posts db') <-> In r (posts sample_db) /\ post_id r <> 1)
    /\ (forall x, In x (post_likes db') <-> In x (post_likes sample_db) /\ x.1 <> 1)
    /\ (forall x, In x (post_tags db') <-> In x (post_tags sample_db) /\ x.1 <> 1).
Proof. apply (Post_delete_keeps_consistent sample_db 1). reflexivity. Defined.

Lemma User_delete_eq (db : DB) (uid : Z) :
  let on_gone := fun k =>
    existsb (Z.eqb k)
      (map post_id (List.filter (fun p => post_author_id p =? uid) (posts db))) in
  User_delete db uid
  = Return (mkDB (List.filter (fun u => negb (user_id u =? uid)) (users db))
              (List.filter (fun p => negb (post_author_id p =? uid)) (posts db))
              (tags db)
              (List.filter (fun c => negb (comment_author_id c =? uid))
                 (List.filter (fun c => negb (on_gone (comment_post_id c))) (comments db)))
              (List.filter (fun '(p, u) => negb (u =? uid) && negb (on_gone p)) (post_likes db))
              (List.filter (fun '(p, _) => negb (on_gone p)) (post_tags db))).
Proof. reflexivity. Qed.

Lemma on_gone_spec (db : DB) (uid k : Z) :
  existsb (Z.eqb k)
    (map post_id (List.filter (fun p => post_author_id p =? uid) (posts db))) = true
  <-> exists p, In p (posts db) /\ post_author_id p = uid /\ post_id p = k.
Proof.
  rewrite existsb_eqb_In, in_map_iff. split.
  - intros (p & Hid & Hp). apply filter_In in Hp as [Hp Ha]. apply Z.eqb_eq in Ha. eauto.
  - intros (p & Hp & Ha & Hid). exists p. split; [exact Hid |].
    apply filter_In. split; [exact Hp | now apply Z.eqb_eq].
Qed.

Lemma has_post_after_user_delete (db : DB) (uid k : Z) :
  existsb (Z.eqb k)
    (map post_id (List.filter (fun p => post_author_id p =? uid) (posts db))) = false ->
  has_post db k = true ->
  existsb (fun p => post_id p =? k)
    (List.filter (fun p => negb (post_author_id p =? uid)) (posts db)) = true.
Proof.
  intros Hgone. apply existsb_filter. intros p Hp Hid. apply Z.eqb_eq in Hid.
  apply negb_true_iff, Z.eqb_neq. intros Ha.
  assert (H : exists p, In p (posts db) /\ post_author_id p = uid /\ post_id p = k) by eauto.
  apply on_gone_spec in H. congruence.
Qed.

Lemma has_user_after_user_delete (db : DB) (uid k : Z) :
  k <> uid -> has_user db k = true ->
  existsb (fun u => user_id u =? k)
    (List.filter (fun u => negb (user_id u =? uid)) (users db)) = true.
Proof.
  intros Hne. apply existsb_filter. intros u _ Hu.
  apply Z.eqb_eq in Hu. apply negb_true_iff, Z.eqb_neq. congruence.
Qed.

(** X4. Deleting a user succeeds and cascades as the two [author]
    fields declare: exactly the other users remain, exactly the posts of
    other authors remain, and a comment remains exactly when it is by
    another author and on a post that was not the user's; a consistent
    database stays consistent. *)
Theorem User_delete_cascades (db : DB) (uid : Z) :
  exists db' : DB,
    User_delete db uid = Return db'
    /\ (forall u, In u (users db') <-> In u (users db) /\ user_id u <> uid)
    /\ (forall p, In p (posts db') <-> In p (posts db) /\ post_author_id p <> uid)
    /\ (forall c, In c (comments db')
                  <-> In c (comments db) /\ comment_author_id c <> uid
                      /\ forall p, In p (posts db) -> post_author_id p = uid ->
                                   post_id p <> comment_post_id c)
    /\ (consistent db = true -> consistent db' = true).
Proof.
  eexists. split; [apply User_delete_eq |].
  cbn [users posts tags comments post_likes post_tags].
  split; [| split; [| split]].
  - intros u. rewrite filter_In, negb_true_iff, Z.eqb_neq. reflexivity.
  - intros p. rewrite filter_In, negb_true_iff, Z.eqb_neq. reflexivity.
  - intros c. rewrite !filter_In, !negb_true_iff, Z.eqb_neq. split.
    + intros [[Hc Hg] Ha]. split; [exact Hc |]. split; [exact Ha |].
      intros p Hp Hu Hid.
      assert (H : exists p, In p (posts db) /\ post_author_id p = uid
                            /\ post_id p = comment_post_id c) by eauto.
      apply on_gone_spec in H. congruence.
    + intros (Hc & Ha & Hg). split; [split; [exact Hc |] | exact Ha].
      apply not_true_is_false. intros H. apply on_gone_spec in H as (p & Hp & Hu & Hid).
      now apply (Hg p).
  - intros Hc. apply consistent_parts in Hc as (Hp & Hcm & Hl & Ht).
    apply consistent_parts. unfold has_user, has_post, has_tag.
    cbn [users posts tags comments post_likes post_tags]. repeat split.
    + eapply forallb_filter; [| exact Hp]. intros p _ Hk H.
      apply has_user_after_user_delete; [| exact H].
      now apply negb_true_iff, Z.eqb_neq in Hk.
    + apply forallb_forall. intros c Hc.
      apply filter_In in Hc as [Hc Ha]. apply filter_In in Hc as [Hc Hg].
      rewrite forallb_forall in Hcm. specialize (Hcm c Hc).
      apply andb_true_iff in Hcm as [H1 H2]. apply andb_true_iff. split.
      * apply has_post_after_user_delete; [now apply negb_true_iff in Hg | exact H1].
      * apply has_user_after_user_delete; [| exact H2].
        now apply negb_true_iff, Z.eqb_neq in Ha.
    + eapply forallb_filter; [| exact Hl]. intros [p u] _ Hk H.
      apply andb_true_iff in Hk as [Hu Hg].
      apply andb_true_iff in H as [H1 H2]. apply andb_true_iff. split.
      * apply has_post_after_user_delete; [now apply negb_true_iff in Hg | exact H1].
      * apply has_user_after_user_delete; [| exact H2].
        now apply negb_true_iff, Z.eqb_neq in Hu.
    + eapply forallb_filter; [| exact Ht]. intros [p t] _ Hg H.
      apply andb_true_iff in H as [H1 H2]. apply andb_true_iff. split; [| exact H2].
      apply has_post_after_user_delete; [now apply negb_true_iff in Hg | exact H1].
Qed.

(** ** String forms *)

Lemma find_existsb {A} (f : A -> bool) (l : list A) :
  existsb f l = true -> exists x, List.find f l = Some x /\ In x l /\ f x = true.
Proof.
  induction l as [| y l IH]; simpl; intros H.
  - discriminate.
  - destruct (f y) eqn:E.
    + exists y. auto.
    + simpl in H. destruct (IH H) as (x & Hf & Hin & Hx). exists x. auto.
Qed.

(** X5. In a consistent database every stored comment has a string
    form: [__str__] finds the author and the post the comment names and
    returns the author's user name, " under ", and the post's title. *)
Theorem Comment_str_of_stored_comment (db : DB) (c : Comment) :
  consistent db = true ->
  In c (comments db) ->
  exists (author : User) (post : Post),
    In author (users db) /\ user_id author = comment_author_id c
    /\ In post (posts db) /\ post_id post = comment_post_id c
    /\ Comment___str__ db c
       = inr (String.append (username author) (String.append " under " (post_title post))).
Proof.
  intros Hc Hin. apply consistent_parts in Hc as (_ & Hcm & _ & _).
  rewrite forallb_forall in Hcm. specialize (Hcm c Hin).
  apply andb_true_iff in Hcm as [Hp Hu].
  apply find_existsb in Hu as (u & Hfu & Hinu & Hidu).
  apply find_existsb in Hp as (p & Hfp & Hinp & Hidp).
  apply Z.eqb_eq in Hidu, Hidp.
  exists u, p. unfold Comment___str__. rewrite Hfu, Hfp. auto.
Qed.

Lemma Comment_str_of_stored_comment_witness :
  exists (author : User) (post : Post),
    In author (users sample_db) /\ user_id author = 3
    /\ In post (posts sample_db) /\ post_id post = 1
    /\ Comment___str__ sample_db (mkComment 2 1 3 "indeed" 12)
       = inr (String.append (username author) (String.append " under " (post_title post))).
Proof.
  apply (Comment_str_of_stored_comment sample_db (mkComment 2 1 3 "indeed" 12)).
  - reflexivity.
  - simpl. auto.
Defined.

(** ** Default orderings *)

Section SortByRelation.
Context {A : Type} (before : A -> A -> bool) (R : A -> A -> Prop).
Hypothesis before_sound : forall x y, before x y = true -> R x y.
Hypothesis before_total : forall x y, before x y = false -> R y x.

Lemma insert_sorted_HdRel (x y : A) (l : list A) :
  R y x -> HdRel R y l -> HdRel R y (insert_sorted before x l).
Proof.
  intros Hyx Hl. destruct l as [| z l]; simpl.
  - now constructor.
  - destruct (before x z); constructor; [exact Hyx |].
    now apply HdRel_inv in Hl.
Qed.

Lemma insert_sorted_Sorted (x : A) (l : list A) :
  Sorted R l -> Sorted R (insert_sorted before x l).
Proof.
  induction 1 as [| y l Hl IH Hy]; simpl.
  - repeat constructor.
  - destruct (before x y) eqn:E.
    + constructor; [now constructor |]. constructor. now apply before_sound.
    + constructor; [exact IH |]. apply insert_sorted_HdRel; [| exact Hy].
      now apply before_total.
Qed.

Lemma sort_by_Sorted (l : list A) : Sorted R (sort_by before l).
Proof.
  induction l as [| x l IH]; simpl.
  - constructor.
  - now apply insert_sorted_Sorted.
Qed.
End SortByRelation.

Lemma sort_by_ascending {A} (key : A -> Z) (l : list A) :
  ascending key (sort_by (asc key) l).
Proof.
  unfold ascending. apply Sorted_StronglySorted.
  - intros x y z Hxy Hyz. lia.
  - apply sort_by_Sorted; unfold asc; intros x y H.
    + now apply Z.leb_le in H.
    + apply Z.leb_gt in H. lia.
Qed.

Lemma Post_objects_group (db : DB) (r : Post) :
  post_group db (manager_query Post_objects) r = [Post_from_row r].
Proof. reflexivity. Qed.

Lemma flat_map_singleton {A B} (f : A -> B) (l : list A) :
  flat_map (fun x => [f x]) l = map f l.
Proof. induction l; simpl; congruence. Qed.

(** X6. [Post.objects] yields every post of the table, once, newest
    first ([Meta.ordering = ['-published_at']]), as plain objects with
    nothing attached. *)
Theorem Post_objects_newest_first (db : DB) :
  Permutation (map p_row (run_posts db (manager_query Post_objects))) (posts db)
  /\ descending (fun o => post_published_at (p_row o))
       (run_posts db (manager_query Post_objects))
  /\ Forall (fun o => o = Post_from_row (p_row o))
       (run_posts db (manager_query Post_objects)).
Proof.
  unfold run_posts. cbn [q_prefetch_tags manager_query]. unfold select_posts.
  cbn [q_order_by manager_query post_before].
  rewrite (filter_all (post_where (manager_query Post_objects))) by reflexivity.
  rewrite (flat_map_ext _ (fun r => [Post_from_row r])) by apply Post_objects_group.
  rewrite flat_map_singleton.
  split; [| split].
  - rewrite sort_by_perm, map_map. simpl. now rewrite map_id.
  - apply sort_by_descending.
  - apply List.Forall_forall. intros o Ho. apply sort_by_In in Ho.
    apply in_map_iff in Ho as (r & <- & _). reflexivity.
Qed.

Lemma Tag_objects_group (db : DB) (t : Tag) :
  tag_group db (tag_manager_query Tag_objects) t = [Tag_from_row t].
Proof. reflexivity. Qed.

(** X7. [Tag.objects] yields every tag of the table, once, in the
    order of the titles ([Meta.ordering = ['title']]): each title is at
    most the one that follows. *)
Theorem Tag_objects_by_title (db : DB) :
  Permutation (select_tags db (tag_manager_query Tag_objects))
              (map Tag_from_row (tags db))
  /\ titles_in_order (select_tags db (tag_manager_query Tag_objects)).
Proof.
  unfold select_tags. cbn [tq_order_by tag_manager_query tag_before].
  rewrite (filter_all (tag_where (tag_manager_query Tag_objects))) by reflexivity.
  rewrite (flat_map_ext _ (fun t => [Tag_from_row t])) by apply Tag_objects_group.
  rewrite flat_map_singleton. split.
  - apply sort_by_perm.
  - unfold titles_in_order. apply sort_by_Sorted.
    + auto.
    + intros x y H. destruct (str_leb_total (t_title x) (t_title y)); congruence.
Qed.

(** ** The comments of a post *)

Lemma remove_dups_NoDup {A} `{EqDecision A} (l : list A) :
  List.NoDup l -> remove_dups l = l.
Proof.
  induction 1 as [| x l Hx Hl IH]; simpl.
  - reflexivity.
  - destruct (decide_rel elem_of x l) as [H | H].
    + exfalso. apply Hx. now apply list_elem_of_In.
    + now rewrite IH.
Qed.

Lemma NoDup_map_filter {A B} (f : A -> B) (keep : A -> bool) (l : list A) :
  List.NoDup (map f l) -> List.NoDup (map f (List.filter keep l)).
Proof.
  induction l as [| x l IH]; simpl; intros H.
  - constructor.
  - apply List.NoDup_cons_iff in H as [Hx Hl]. destruct (keep x); simpl; [| now apply IH].
    constructor; [| now apply IH]. intros Hin. apply Hx.
    apply in_map_iff in Hin as (y & Hy & Hin). apply filter_In in Hin as [Hin _].
    apply in_map_iff. eauto.
Qed.

(** [post.comments.all()] yields exactly the comments that reference the
    post, oldest first. *)
Lemma comments_of_post_spec (db : DB) (pid : Z) :
  (forall c, In c (comments_of_post db pid)
             <-> In c (comments db) /\ comment_post_id c = pid)
  /\ ascending comment_published_at (comments_of_post db pid).
Proof.
  unfold comments_of_post. split.
  - intros c. rewrite sort_by_In, filter_In, Z.eqb_eq. reflexivity.
  - apply sort_by_ascending.
Qed.

Lemma distinct_comments_length (db : DB) (pid : Z) :
  List.NoDup (map comment_id (comments db)) ->
  distinct_comments db pid = length (comments_of_post db pid).
Proof.
  intros Hn. unfold distinct_comments, comments_of_post.
  rewrite remove_dups_NoDup by now apply NoDup_map_filter.
  rewrite length_map. symmetry. apply Permutation_length, sort_by_perm.
Qed.

(** X8. When comment ids are unique and every post of the query set is
    in the database, the [comments_count] that
    [fetch_with_comments_count()] attaches to a post is the length of
    [post.comments.all()], the comments of the post that the related
    manager yields. *)
Theorem fetch_with_comments_count_is_len_of_comments
        (db : DB) (h h1 : list PostObj) (self : PostQuerySetObj) (locs : list nat) :
  iterated db h self = (h1, locs) ->
  (forall l post, In l locs -> h1 !! l = Some post ->
                  exists r, In r (posts db) /\ post_id r = p_id post) ->
  List.NoDup (map comment_id (comments db)) ->
  exists h2 : list PostObj,
    PostQuerySet.fetch_with_comments_count db h self
    = (h2, Return (mkQS (qs_query self) (Some locs)))
    /\ forall l post,
         In l locs -> h1 !! l = Some post ->
         exists post' : PostObj,
           h2 !! l = Some post'
           /\ p_comments_count post' = Some (length (comments_of_post db (p_id post))).
Proof.
  intros Hit Hdb Hn.
  destruct (fetch_when_posts_present db h h1 self locs Hit Hdb) as (h2 & Hrun & Hcounts).
  exists h2. split; [exact Hrun |].
  intros l post Hl Hp. eexists. split; [exact (Hcounts l post Hl Hp) |].
  cbn [set_comments_count p_comments_count]. f_equal. now apply distinct_comments_length.
Qed.

Lemma sample_comment_ids_NoDup : List.NoDup (map comment_id (comments sample_db)).
Proof. simpl. repeat constructor; simpl; intuition discriminate. Qed.

Lemma fetch_with_comments_count_is_len_of_comments_witness :
  exists h2 : list PostObj,
    PostQuerySet.fetch_with_comments_count sample_db [] sample_queryset
    = (h2, Return (mkQS (qs_query sample_queryset)
                     (Some (iterated sample_db [] sample_queryset).2)))
    /\ forall l post,
         In l (iterated sample_db [] sample_queryset).2 ->
         (iterated sample_db [] sample_queryset).1 !! l = Some post ->
         exists post' : PostObj,
           h2 !! l = Some post'
           /\ p_comments_count post'
              = Some (length (comments_of_post sample_db (p_id post))).
Proof.
  apply (fetch_with_comments_count_is_len_of_comments sample_db []
           (iterated sample_db [] sample_queryset).1 sample_queryset
           (iterated sample_db [] sample_queryset).2).
  - reflexivity.
  - exact sample_posts_present.
  - exact sample_comment_ids_NoDup.
Defined.

(** ** More on [fetch_with_comments_count] *)

Lemma with_count_present (counts : gmap Z nat) (n : nat) (post : PostObj) :
  counts !! p_id post = Some n -> with_count counts post = set_comments_count n post.
Proof. intros H. unfold with_count. now rewrite H. Qed.

(** The call on a query set that it has to evaluate itself, as one
    equation. *)
Lemma fetch_unevaluated_eq (db : DB) (h : list PostObj) (q : PostQuery) :
  PostQuerySet.fetch_with_comments_count db h (mkQS q None)
  = (h ++ ((fun o => set_comments_count (distinct_comments db (p_id o)) o)
             <$> run_posts db q),
     Return (mkQS q (Some (seq (length h) (length (run_posts db q)))))).
Proof.
  set (objs := run_posts db q). set (locs := seq (length h) (length objs)).
  rewrite (fetch_unfold db h (h ++ objs) (mkQS q None) locs) by reflexivity.
  set (counts := PostQuerySet.count_for_id db (PostQuerySet.post_ids (h ++ objs) locs)).
  assert (Hcount : forall l post, In l locs -> (h ++ objs) !! l = Some post ->
                     counts !! p_id post = Some (distinct_comments db (p_id post))).
  { intros l post Hl Hp. apply count_for_id_lookup. split.
    - now apply (post_ids_In (h ++ objs) locs l).
    - apply in_seq in Hl as [Hge _]. rewrite lookup_app_r in Hp by exact Hge.
      apply list_elem_of_lookup_2, list_elem_of_In, run_posts_row_In in Hp.
      exists (p_row post). split; [exact Hp | reflexivity]. }
  destruct (attach_counts_return counts locs (h ++ objs)) as (h2 & Hrun & Hlen & Hin & Hout).
  { intros l post Hl Hp. rewrite (Hcount l post Hl Hp). eauto. }
  rewrite Hrun. cbn [bind qs_query]. f_equal.
  apply list_eq. intros i.
  destruct (in_dec Nat.eq_dec i locs) as [Hi | Hi].
  - rewrite (Hin i Hi). pose proof Hi as Hr. apply in_seq in Hr as [Hge Hlt].
    rewrite !lookup_app_r by exact Hge. rewrite list_lookup_fmap.
    pose proof (Hcount i) as Hc. rewrite lookup_app_r in Hc by exact Hge.
    destruct (objs !! (i - length h)%nat) as [post |]; [| reflexivity].
    simpl. f_equal. apply with_count_present. now apply Hc.
  - rewrite (Hout i Hi). destruct (Nat.lt_ge_cases i (length h)) as [Hlt | Hge].
    + now rewrite !lookup_app_l by exact Hlt.
    + assert (length h + length objs <= i)%nat as Hbig.
      { destruct (Nat.lt_ge_cases i (length h + length objs)) as [Hlt |]; [| assumption].
        exfalso. apply Hi. apply in_seq. lia. }
      rewrite !lookup_ge_None_2; [reflexivity | |].
      * rewrite length_app, length_fmap. fold objs. lia.
      * rewrite length_app. lia.
Qed.

(** X9. On a query set that has not been evaluated,
    [fetch_with_comments_count()] never raises: it loads the posts of
    the query set behind the objects already in memory, in the order of
    the query, each carrying [comments_count] equal to the number of its
    distinct comments and otherwise as the query yields it, and returns
    the query set holding them. *)
Theorem fetch_with_comments_count_of_unevaluated (db : DB) (h : list PostObj) (q : PostQuery) :
  exists objs : list PostObj,
    PostQuerySet.fetch_with_comments_count db h (mkQS q None)
    = (h ++ objs, Return (mkQS q (Some (seq (length h) (length objs)))))
    /\ Forall2 (fun o' o => p_comments_count o' = Some (distinct_comments db (p_id o))
                            /\ same_but_comments_count o' o)
         objs (run_posts db q).
Proof.
  exists ((fun o => set_comments_count (distinct_comments db (p_id o)) o) <$> run_posts db q).
  split.
  - rewrite fetch_unevaluated_eq. now rewrite length_fmap.
  - induction (run_posts db q) as [| o l IH]; cbn [fmap list_fmap]; constructor.
    + split; [reflexivity | repeat split].
    + exact IH.
Qed.

(** X10. [fetch_with_comments_count()] raises exactly when some post of
    the query set is no longer a row of the table, that is when the
    query set was evaluated before one of its posts was deleted. *)
Theorem fetch_with_comments_count_raises_iff_post_deleted
        (db : DB) (h h1 : list PostObj) (self : PostQuerySetObj) (locs : list nat) :
  iterated db h self = (h1, locs) ->
  (exists e, (PostQuerySet.fetch_with_comments_count db h self).2 = Raise e)
  <-> (exists l post, In l locs /\ h1 !! l = Some post
                      /\ forall r, In r (posts db) -> post_id r <> p_id post).
Proof.
  intros Hit. rewrite (fetch_unfold db h h1 self locs Hit).
  set (counts := PostQuerySet.count_for_id db (PostQuerySet.post_ids h1 locs)).
  pose proof (attach_counts_outcome counts locs h1) as Hout.
  destruct (PostQuerySet.attach_counts counts locs h1) as [h2 [u | e]]; simpl in *.
  - split; [intros [e He]; discriminate |].
    intros (l & post & Hl & Hp & Hgone). exfalso.
    destruct (Hout l post Hl Hp) as [n Hn].
    assert (Hnone : counts !! p_id post = None).
    { apply count_for_id_lookup. intros (_ & r & Hr & Hid). now apply (Hgone r). }
    congruence.
  - split; [intros _ | eauto].
    destruct Hout as (l & post & Hl & Hp & Hnone & _).
    exists l, post. split; [exact Hl |]. split; [exact Hp |].
    intros r Hr Hid.
    assert (Hsome : counts !! p_id post = Some (distinct_comments db (p_id post))).
    { apply count_for_id_lookup. split; [now apply (post_ids_In h1 locs l) | eauto]. }
    congruence.
Qed.

Lemma fetch_with_comments_count_raises_iff_post_deleted_witness :
  (exists e,
      (PostQuerySet.fetch_with_comments_count sample_db_without_post_1
         sample_loaded.1 sample_loaded.2).2 = Raise e)
  <-> (exists l post, In l [0; 1; 2]%nat /\ sample_loaded.1 !! l = Some post
                      /\ forall r, In r (posts sample_db_without_post_1) ->
                                   post_id r <> p_id post).
Proof.
  apply (fetch_with_comments_count_raises_iff_post_deleted sample_db_without_post_1
           sample_loaded.1 sample_loaded.1 sample_loaded.2 [0; 1; 2]%nat).
  reflexivity.
Defined.

Lemma with_count_idempotent (counts : gmap Z nat) (post : PostObj) :
  with_count counts (with_count counts post) = with_count counts post.
Proof.
  destruct (counts !! p_id post) as [n |] eqn:E.
  - rewrite (with_count_present counts n post E).
    now destruct (with_count_set counts n post E).
  - unfold with_count. now rewrite E, E.
Qed.

Lemma fmap_id_with_count (counts : gmap Z nat) (o : option PostObj) :
  p_id <$> (with_count counts <$> o) = p_id <$> o.
Proof.
  destruct o as [post |]; [| reflexivity].
  change (Some (p_id (with_count counts post)) = Some (p_id post)).
  now rewrite with_count_id.
Qed.

Lemma fmap_with_count_idempotent (counts : gmap Z nat) (o : option PostObj) :
  with_count counts <$> (with_count counts <$> o) = with_count counts <$> o.
Proof.
  destruct o as [post |]; [| reflexivity].
  change (Some (with_count counts (with_count counts post)) = Some (with_count counts post)).
  now rewrite with_count_idempotent.
Qed.

Lemma omap_ext_In {A B} (f g : A -> option B) (l : list A) :
  (forall x, In x l -> f x = g x) -> omap f l = omap g l.
Proof.
  induction l as [| x l IH]; intros H.
  - reflexivity.
  - change (match f x with Some y => y :: omap f l | None => omap f l end
            = match g x with Some y => y :: omap g l | None => omap g l end).
    rewrite (H x) by now left.
    rewrite IH by (intros y Hy; apply H; now right). reflexivity.
Qed.

Lemma post_ids_ext (h h' : list PostObj) (locs : list nat) :
  (forall l, In l locs -> p_id <$> h !! l = p_id <$> h' !! l) ->
  PostQuerySet.post_ids h locs = PostQuerySet.post_ids h' locs.
Proof. intros H. unfold PostQuerySet.post_ids. now apply omap_ext_In. Qed.

(** X11. Calling [fetch_with_comments_count()] again on its own result
    changes nothing: the second call returns the same query set and
    leaves every object of the heap as the first call left it. *)
Theorem fetch_with_comments_count_twice
        (db : DB) (h h2 : list PostObj) (self posts' : PostQuerySetObj) :
  PostQuerySet.fetch_with_comments_count db h self = (h2, Return posts') ->
  PostQuerySet.fetch_with_comments_count db h2 posts' = (h2, Return posts').
Proof.
  intros Hret. destruct (iterated db h self) as [h1 locs] eqn:Hit.
  rewrite (fetch_unfold db h h1 self locs Hit) in Hret.
  set (counts := PostQuerySet.count_for_id db (PostQuerySet.post_ids h1 locs)) in Hret.
  pose proof (attach_counts_outcome counts locs h1) as Hall.
  destruct (attach_counts_return counts locs h1) as (h2' & Hrun & Hlen & Hin & Hout).
  { rewrite (surjective_pairing (PostQuerySet.attach_counts counts locs h1)) in Hret.
    destruct (PostQuerySet.attach_counts counts locs h1).2; [exact Hall | discriminate]. }
  rewrite Hrun in Hret, Hall. cbn [bind snd] in Hret, Hall. injection Hret as <- <-.
  rewrite (fetch_unfold db h2' h2' (mkQS (qs_query self) (Some locs)) locs) by reflexivity.
  assert (Hids : PostQuerySet.post_ids h2' locs = PostQuerySet.post_ids h1 locs).
  { apply post_ids_ext. intros l Hl. rewrite (Hin l Hl).
    apply fmap_id_with_count. }
  rewrite Hids. fold counts.
  destruct (attach_counts_return counts locs h2') as (h3 & Hrun3 & Hlen3 & Hin3 & Hout3).
  { intros l post Hl Hp. rewrite (Hin l Hl) in Hp.
    apply fmap_Some in Hp as (post0 & E & ->).
    rewrite with_count_id. now apply (Hall l post0). }
  rewrite Hrun3. cbn [bind qs_query]. f_equal.
  apply list_eq. intros i. destruct (in_dec Nat.eq_dec i locs) as [Hi | Hi].
  - rewrite (Hin3 i Hi), (Hin i Hi). apply fmap_with_count_idempotent.
  - now apply Hout3.
Qed.

Lemma fetch_with_comments_count_twice_witness :
  PostQuerySet.fetch_with_comments_count sample_db
    (PostQuerySet.fetch_with_comments_count sample_db [] sample_queryset).1
    (mkQS (manager_query Post_objects) (Some [0; 1; 2]%nat))
  = ((PostQuerySet.fetch_with_comments_count sample_db [] sample_queryset).1,
     Return (mkQS (manager_query Post_objects) (Some [0; 1; 2]%nat))).
Proof.
  apply (fetch_with_comments_count_twice sample_db [] _ sample_queryset).
  vm_compute. reflexivity.
Defined.

(** ** More on [prefetch_with_tags_and_authors] *)

Lemma tag_related_In (db : DB) (tid pid : Z) :
  In pid (tag_related db RPosts tid) <-> In (pid, tid) (post_tags db).
Proof.
  unfold tag_related. rewrite in_map_iff. split.
  - intros ([p t] & <- & H). apply filter_In in H as [H E]. apply Z.eqb_eq in E. now subst.
  - intros H. exists (pid, tid). split; [reflexivity |].
    apply filter_In. split; [exact H | apply Z.eqb_refl].
Qed.

Lemma head_keys_In (v : option Z) (col : list (option Z)) (R : list (list (option Z))) :
  In v (omap (fun row : list (option Z) => row !! 0%nat)
          (flat_map (fun u => map (cons u) R) col))
  <-> In v col /\ R <> [].
Proof.
  rewrite <- list_elem_of_In, list_elem_of_omap. split.
  - intros (row & Hrow & Hhead). apply list_elem_of_In, in_flat_map in Hrow as (u & Hu & Hr).
    apply in_map_iff in Hr as (r & <- & Hr). injection Hhead as <-.
    split; [exact Hu |]. intros ->. contradiction.
  - intros [Hv HR]. destruct R as [| r R]; [congruence |].
    exists (v :: r). split; [| reflexivity].
    apply list_elem_of_In, in_flat_map. exists v. split; [exact Hv | now left].
Qed.

Lemma outer_column_In (db : DB) (tid pid : Z) :
  In (Some pid) (join_column (tag_related db) tid (mkJoin RPosts None))
  <-> In pid (tag_related db RPosts tid).
Proof.
  unfold join_column. cbn [join_in join_rel].
  destruct (tag_related db RPosts tid) as [| x l] eqn:E.
  - simpl. split; [intros [H | []]; discriminate | tauto].
  - rewrite in_map_iff. split.
    + intros (y & [= ->] & Hy). exact Hy.
    + intros H. eauto.
Qed.

Lemma inner_rows_nonempty (db : DB) (batch : list Z) (tid pid : Z) :
  In pid (tag_related db RPosts tid) -> In pid batch ->
  rows_of (tag_related db) [mkJoin RPosts (Some batch)] tid <> [].
Proof.
  intros Hp Hb. unfold rows_of. cbn [map]. rewrite join_rows_single.
  unfold join_column. cbn [join_in join_rel]. intros H.
  apply map_eq_nil, map_eq_nil in H.
  assert (Hin : In pid (List.filter (fun x => existsb (Z.eqb x) batch)
                          (tag_related db RPosts tid))).
  { apply filter_In. split; [exact Hp | now apply existsb_eqb_In]. }
  rewrite H in Hin. contradiction.
Qed.

(** The tags that the prefetch query selects for a post of the batch
    are the tags of that post. *)
Lemma prefetch_tag_group_In (db : DB) (batch : list Z) (r : Tag) (pid : Z) (t : TagObj) :
  In pid batch ->
  In (Some pid, t) (prefetch_tag_group db batch r) ->
  t_id t = Some (tag_id r) /\ In (pid, tag_id r) (post_tags db).
Proof.
  intros Hb H. unfold prefetch_tag_group in H.
  apply in_map_iff in H as (v & [= -> <-] & Hkey). split; [reflexivity |].
  rewrite <- list_elem_of_In, elem_of_remove_dups, list_elem_of_In in Hkey.
  unfold prefetch_tag_joins in Hkey. rewrite rows_of_cons in Hkey.
  apply head_keys_In in Hkey as [Hcol _].
  now apply outer_column_In, tag_related_In in Hcol.
Qed.

Lemma prefetch_tag_group_complete (db : DB) (batch : list Z) (r : Tag) (pid : Z) :
  In pid batch -> In (pid, tag_id r) (post_tags db) ->
  exists t, In (Some pid, t) (prefetch_tag_group db batch r) /\ t_id t = Some (tag_id r).
Proof.
  intros Hb Hpt. apply tag_related_In in Hpt. unfold prefetch_tag_group.
  eexists. split.
  - apply in_map_iff. exists (Some pid). split; [reflexivity |].
    rewrite <- list_elem_of_In, elem_of_remove_dups, list_elem_of_In.
    unfold prefetch_tag_joins. rewrite rows_of_cons. apply head_keys_In. split.
    + now apply outer_column_In.
    + now apply (inner_rows_nonempty db batch (tag_id r) pid).
  - reflexivity.
Qed.

Lemma has_tag_spec (db : DB) (tid : Z) :
  has_tag db tid = true <-> exists r, In r (tags db) /\ tag_id r = tid.
Proof.
  unfold has_tag. rewrite existsb_exists. split; intros (r & Hr & H); exists r;
    (split; [exact Hr |]); now apply Z.eqb_eq.
Qed.

Lemma prefetched_tags_are_the_posts_tags (db : DB) (objs : list PostObj) (o : PostObj) :
  In o (prefetch_tags db objs) ->
  exists ts, p_tags o = Some ts
             /\ forall tid, In (Some tid) (map t_id ts)
                            <-> In (p_id o, tid) (post_tags db) /\ has_tag db tid = true.
Proof.
  unfold prefetch_tags. intros H. apply in_map_iff in H as (o' & <- & Ho').
  eexists. split; [reflexivity |]. cbn [p_id p_row].
  change (post_id (p_row o')) with (p_id o').
  assert (Hb : In (p_id o') (map p_id objs)) by now apply in_map.
  intros tid. rewrite has_tag_spec, in_map_iff. split.
  - intros (t & Hid & Ht). apply in_map_iff in Ht as ([v t'] & Heq & Hvt).
    cbn [snd] in Heq. subst t'.
    apply list_elem_of_In, list_elem_of_filter in Hvt as [Hv Hvt]. cbn [fst] in Hv. subst v.
    apply list_elem_of_In in Hvt. unfold prefetch_tag_rows in Hvt.
    apply in_flat_map in Hvt as (r & Hr & Hg). apply sort_by_In in Hr.
    apply (prefetch_tag_group_In db _ r (p_id o') t Hb) in Hg as [Hid' Hpt].
    assert (tag_id r = tid) as <- by congruence. eauto.
  - intros (Hpt & r & Hr & <-).
    destruct (prefetch_tag_group_complete db (map p_id objs) r (p_id o') Hb Hpt)
      as (t & Ht & Hid).
    exists t. split; [exact Hid |]. apply in_map_iff. exists (Some (p_id o'), t).
    split; [reflexivity |]. apply list_elem_of_In, list_elem_of_filter. split; [reflexivity |].
    apply list_elem_of_In. unfold prefetch_tag_rows. apply in_flat_map.
    exists r. split; [now apply sort_by_In | exact Ht].
Qed.

Lemma post_group_author (db : DB) (q : PostQuery) (r : Post) (o : PostObj) :
  q_select_related_author q = true ->
  In o (post_group db q r) ->
  exists u, p_author o = Some u /\ In u (users db) /\ user_id u = post_author_id r.
Proof.
  intros Hs. unfold post_group. rewrite Hs.
  set (rows := rows_of (post_related db) (post_joins q) (post_id r)).
  destruct (List.find _ (users db)) as [u |] eqn:E; [| contradiction].
  apply find_some in E as [Hu Hid]. apply Z.eqb_eq in Hid.
  intros H. exists u.
  destruct (q_likes_count q || q_comments_count q).
  - destruct rows; [contradiction |]. destruct H as [<- | []]. auto.
  - apply in_map_iff in H as (x & <- & _). auto.
Qed.

(** X12. Every post that [prefetch_with_tags_and_authors()] yields has
    its author loaded, a user of the table whose id is the post's
    [author], and its tags loaded: the prefetched list names exactly the
    tags that the join table gives the post and that exist. *)
Theorem prefetch_with_tags_and_authors_loads (db : DB) (q : PostQuery) (o : PostObj) :
  In o (run_posts db (PostQuerySet.prefetch_with_tags_and_authors q)) ->
  (exists u, p_author o = Some u /\ In u (users db)
             /\ user_id u = post_author_id (p_row o))
  /\ (exists ts, p_tags o = Some ts
                 /\ forall tid, In (Some tid) (map t_id ts)
                                <-> In (p_id o, tid) (post_tags db)
                                    /\ has_tag db tid = true).
Proof.
  intros Ho. unfold run_posts in Ho.
  change (q_prefetch_tags (PostQuerySet.prefetch_with_tags_and_authors q)) with true in Ho.
  cbn match in Ho. split.
  - apply prefetch_tags_In in Ho as (o' & Ho' & Hrow & _ & _ & Ha).
    unfold select_posts in Ho'. apply sort_by_In, in_flat_map in Ho' as (r & _ & Hg).
    pose proof (post_group_row db _ r o' Hg) as Hr.
    apply post_group_author in Hg as (u & Hu & Hin & Hid); [| reflexivity].
    exists u. rewrite Ha, Hrow, Hr. auto.
  - now apply prefetched_tags_are_the_posts_tags in Ho.
Qed.

Lemma prefetch_with_tags_and_authors_loads_witness :
  (exists u, p_author
               (mkPostObj (mkPost 1 "First" "..." "first" "1.png" 10 1) None None
                  (Some (mkUser 1 "ann" true))
                  (Some [mkTagObj (Some 2) "django" (Some 1%nat);
                         mkTagObj (Some 1) "python" (Some 1%nat)])) = Some u
             /\ In u (users sample_db) /\ user_id u = 1)
  /\ (exists ts, Some [mkTagObj (Some 2) "django" (Some 1%nat);
                       mkTagObj (Some 1) "python" (Some 1%nat)] = Some ts
                 /\ forall tid, In (Some tid) (map t_id ts)
                                <-> In (1, tid) (post_tags sample_db)
                                    /\ has_tag sample_db tid = true).
Proof.
  apply (prefetch_with_tags_and_authors_loads sample_db (manager_query (posts_of_tag 2))
           (mkPostObj (mkPost 1 "First" "..." "first" "1.png" 10 1) None None
              (Some (mkUser 1 "ann" true))
              (Some [mkTagObj (Some 2) "django" (Some 1%nat);
                     mkTagObj (Some 1) "python" (Some 1%nat)]))).
  vm_compute. now left.
Defined.

(** ** [popular()] through a related manager of the counted relation *)

Lemma pair_filter_In (l : list (Z * Z)) (k u x : Z) :
  In x (List.filter (fun y => existsb (Z.eqb y) [u])
          (map snd (List.filter (fun '(p, _) => p =? k) l))) ->
  x = u /\ In (k, u) l.
Proof.
  intros H. apply filter_In in H as [H E]. apply existsb_eqb_In in E as [-> | []].
  split; [reflexivity |].
  apply in_map_iff in H as ([p y] & Hy & H). simpl in Hy. subst y.
  apply filter_In in H as [H Ep]. apply Z.eqb_eq in Ep. now subst.
Qed.

Lemma Count_reused_single (rel : PostRel) (db : DB) (k u : Z) :
  join_column (post_related db) k (mkJoin rel (Some [u])) = [Some u] ->
  rows_of (post_related db) [mkJoin rel (Some [u])] k = [[Some u]]
  /\ Count rel false [mkJoin rel (Some [u])] [[Some u]] = 1%nat.
Proof.
  intros H. split.
  - unfold rows_of. cbn [map]. now rewrite H.
  - unfold Count. cbn [join_index join_rel]. now rewrite decide_True.
Qed.

(** X14. Through [user.liked_posts], [popular()] counts the one like
    that the manager's filter selected: every post it yields is a post
    that the user liked and carries [likes_count = 1], whatever the
    number of its likes. *)
Theorem PostQuerySet_popular_through_liked_posts_counts_one
        (db : DB) (q : PostQuery) (u : Z) (o : PostObj) :
  q_manager q = liked_posts_of u ->
  q_comments_count q = false ->
  List.NoDup (post_likes db) ->
  In o (run_posts db (PostQuerySet.popular q)) ->
  p_likes_count o = Some 1%nat /\ In (p_id o, u) (post_likes db).
Proof.
  intros Hm Hc Hn Ho.
  assert (Hsel : exists o', In o' (select_posts db (PostQuerySet.popular q))
                            /\ p_row o = p_row o' /\ p_likes_count o = p_likes_count o').
  { unfold run_posts in Ho. destruct (q_prefetch_tags (PostQuerySet.popular q)).
    - apply prefetch_tags_In in Ho as (o' & Ho' & Hr & Hl & _). eauto.
    - eauto. }
  destruct Hsel as (o' & Ho' & Hrow & Hlikes). unfold p_id. rewrite Hrow, Hlikes.
  unfold select_posts in Ho'. apply sort_by_In, in_flat_map in Ho' as (r & _ & Hg).
  pose proof (post_group_row db _ r o' Hg) as Hr. rewrite Hr.
  unfold post_group, post_joins in Hg.
  cbn [PostQuerySet.popular order_by annotate_likes_count q_manager q_likes_count
       q_comments_count q_select_related_author orb] in Hg.
  rewrite Hm, Hc in Hg.
  change (add_join RLikes (manager_joins (liked_posts_of u)))
    with [mkJoin RLikes (Some [u])] in Hg.
  assert (Hcol : join_column (post_related db) (post_id r) (mkJoin RLikes (Some [u])) = []
                 \/ (join_column (post_related db) (post_id r) (mkJoin RLikes (Some [u]))
                     = [Some u] /\ In (post_id r, u) (post_likes db))).
  { unfold join_column. cbn [join_in join_rel post_related].
    pose proof (tag_filter_at_most_one (post_likes db) (post_id r) u Hn) as Hone.
    cbv zeta in Hone. destruct Hone as [E | E]; rewrite E; [now left | right].
    split; [reflexivity |].
    apply (pair_filter_In (post_likes db) (post_id r) u u). rewrite E. now left. }
  destruct Hcol as [E | [E Hin]].
  - exfalso. unfold rows_of in Hg. cbn [map] in Hg. rewrite E in Hg. cbn in Hg.
    destruct (q_select_related_author q); [destruct (List.find _ (users db)) |]; exact Hg.
  - destruct (Count_reused_single RLikes db (post_id r) u E) as [Hrows Hcount].
    rewrite Hrows, Hcount in Hg. split; [| exact Hin].
    destruct (q_select_related_author q);
      [destruct (List.find _ (users db)); [| contradiction] |];
      destruct Hg as [<- | []]; reflexivity.
Qed.

Lemma PostQuerySet_popular_through_liked_posts_counts_one_witness :
  p_likes_count (mkPostObj (mkPost 1 "First" "..." "first" "1.png" 10 1)
                   (Some 1%nat) None None None) = Some 1%nat
  /\ In (p_id (mkPostObj (mkPost 1 "First" "..." "first" "1.png" 10 1)
                 (Some 1%nat) None None None), 1) (post_likes sample_db).
Proof.
  apply (PostQuerySet_popular_through_liked_posts_counts_one sample_db
           (manager_query (liked_posts_of 1)) 1).
  - reflexivity.
  - reflexivity.
  - simpl. repeat constructor; simpl; intuition discriminate.
  - vm_compute. now left.
Defined.

Lemma post_filter_absent (l : list (Z * Z)) (p t : Z) :
  ~ In (p, t) l ->
  List.filter (fun x => existsb (Z.eqb x) [p])
    (map fst (List.filter (fun '(_, t') => t' =? t) l)) = [].
Proof.
  induction l as [| [x y] l IH]; simpl; intros Hn.
  - reflexivity.
  - destruct (y =? t) eqn:Ey; simpl.
    + destruct (x =? p) eqn:Ex; simpl.
      * apply Z.eqb_eq in Ex, Ey. subst. tauto.
      * apply IH. tauto.
    + apply IH. tauto.
Qed.

Lemma post_filter_at_most_one (l : list (Z * Z)) (p t : Z) :
  List.NoDup l ->
  let f := List.filter (fun x => existsb (Z.eqb x) [p])
             (map fst (List.filter (fun '(_, t') => t' =? t) l)) in
  f = [] \/ (f = [p] /\ In (p, t) l).
Proof.
  induction 1 as [| [x y] l Hn Hl IH]; simpl.
  - now left.
  - assert (Hrest : forall f, (f = [] \/ f = [p] /\ In (p, t) l) ->
                              f = [] \/ f = [p] /\ ((x, y) = (p, t) \/ In (p, t) l)) by tauto.
    destruct (y =? t) eqn:Ey; simpl; [| now apply Hrest].
    destruct (x =? p) eqn:Ex; simpl; [| now apply Hrest].
    apply Z.eqb_eq in Ex, Ey. subst. right. split; [| now left].
    exact (f_equal (cons p) (post_filter_absent l p t Hn)).
Qed.

(** X15. Through [post.tags], [popular()] counts the one post that the
    manager's filter selected: every tag it yields is a tag of that
    post and carries [posts_count = 1], whatever the number of posts
    that bear it. *)
Theorem TagQuerySet_popular_through_post_tags_counts_one
        (db : DB) (q : TagQuery) (p : Z) (t : TagObj) :
  tq_manager q = tags_of_post p ->
  List.NoDup (post_tags db) ->
  In t (select_tags db (TagQuerySet.popular q)) ->
  t_posts_count t = Some 1%nat
  /\ exists k, t_id t = Some k /\ In (p, k) (post_tags db).
Proof.
  intros Hm Hn Ht. unfold select_tags in Ht.
  apply sort_by_In, in_flat_map in Ht as (r & _ & Hg).
  unfold tag_group, tag_joins in Hg.
  cbn [TagQuerySet.popular tq_manager tq_posts_count] in Hg. rewrite Hm in Hg.
  change (add_join RPosts (tag_manager_joins (tags_of_post p)))
    with [mkJoin RPosts (Some [p])] in Hg.
  unfold rows_of in Hg. cbn [map] in Hg. rewrite join_rows_single in Hg.
  unfold join_column in Hg. cbn [join_in join_rel tag_related] in Hg.
  pose proof (post_filter_at_most_one (post_tags db) p (tag_id r) Hn) as Hone.
  cbv zeta in Hone. destruct Hone as [E | [E Hin]]; rewrite E in Hg.
  - contradiction.
  - cbn [map] in Hg. destruct Hg as [<- | []]. split.
    + reflexivity.
    + exists (tag_id r). auto.
Qed.

Lemma TagQuerySet_popular_through_post_tags_counts_one_witness :
  t_posts_count (mkTagObj (Some 1) "python" (Some 1%nat)) = Some 1%nat
  /\ exists k, t_id (mkTagObj (Some 1) "python" (Some 1%nat)) = Some k
               /\ In (1, k) (post_tags sample_db).
Proof.
  apply (TagQuerySet_popular_through_post_tags_counts_one sample_db
           (tag_manager_query (tags_of_post 1)) 1).
  - reflexivity.
  - exact sample_post_tags_NoDup.
  - vm_compute. now left.
Defined.

(** ** The helpers in a row *)

Lemma fmap_map {A B} (f : A -> B) (l : list A) : f <$> l = map f l.
Proof. induction l as [| x l IH]; [reflexivity |]. cbn. now rewrite IH. Qed.

(** X16. The three helpers compose as a view chains them.  On a query
    set of posts that starts from [Post.objects], [tag.posts] or
    [user.post_set], is narrowed by [filter(id__in=...)] only and carries
    no other aggregate, over a join table [post_tags] without repeated
    rows, [popular()] then [prefetch_with_tags_and_authors()] then
    [fetch_with_comments_count()] returns, and the posts it loads are
    those of the query set, in descending order of their likes, each
    with its number of likes and its number of distinct comments
    attached, its author loaded, the user of the table that the post
    names, and its tags loaded, exactly the tags that the join table
    gives the post and that exist. *)
Theorem popular_prefetch_fetch_chain (db : DB) (h : list PostObj) (q : PostQuery) :
  joins_no_likes (q_manager q) = true ->
  q_comments_count q = false ->
  List.NoDup (post_tags db) ->
  let chain := PostQuerySet.prefetch_with_tags_and_authors (PostQuerySet.popular q) in
  exists objs : list PostObj,
    PostQuerySet.fetch_with_comments_count db h (mkQS chain None)
    = (h ++ objs, Return (mkQS chain (Some (seq (length h) (length objs)))))
    /\ Permutation (map p_row objs)
         (map p_row (run_posts db (PostQuerySet.prefetch_with_tags_and_authors q)))
    /\ descending likes_key objs
    /\ Forall (fun o =>
                 p_likes_count o = Some (number_of_likes db (p_id o))
                 /\ p_comments_count o = Some (distinct_comments db (p_id o))
                 /\ (exists u, p_author o = Some u /\ In u (users db)
                               /\ user_id u = post_author_id (p_row o))
                 /\ (exists ts, p_tags o = Some ts
                                /\ forall tid, In (Some tid) (map t_id ts)
                                               <-> In (p_id o, tid) (post_tags db)
                                                   /\ has_tag db tid = true)) objs.
Proof.
  intros Hm Hc Hn chain.
  set (q1 := PostQuerySet.prefetch_with_tags_and_authors q).
  assert (Hchain : chain = PostQuerySet.popular q1) by reflexivity.
  set (f := fun o => set_comments_count (distinct_comments db (p_id o)) o).
  exists (map f (run_posts db chain)). split; [| split; [| split]].
  - rewrite fetch_unevaluated_eq. fold f. now rewrite fmap_map, length_map.
  - rewrite map_map. change (fun x => p_row (f x)) with p_row.
    rewrite Hchain. unfold run_posts.
    change (q_prefetch_tags (PostQuerySet.popular q1)) with true.
    change (q_prefetch_tags q1) with true. cbn match.
    rewrite !prefetch_tags_rows. unfold select_posts. rewrite !sort_by_perm.
    change (post_where (PostQuerySet.popular q1)) with (post_where q1).
    rewrite (flat_map_fields_ext (post_group db (PostQuerySet.popular q1)) (post_group db q1)).
    + reflexivity.
    + intros r. now apply post_group_popular_rows.
  - apply descending_map; [reflexivity |]. rewrite Hchain. unfold run_posts.
    change (q_prefetch_tags (PostQuerySet.popular q1)) with true. cbn match.
    apply prefetch_tags_descending. unfold select_posts. apply sort_by_descending.
  - apply List.Forall_forall. intros o Ho. apply in_map_iff in Ho as (o1 & <- & Ho1).
    rewrite Hchain in Ho1. unfold run_posts in Ho1.
    change (q_prefetch_tags (PostQuerySet.popular q1)) with true in Ho1. cbn match in Ho1.
    pose proof (prefetched_tags_are_the_posts_tags db _ o1 Ho1) as Htags.
    apply prefetch_tags_In in Ho1 as (o2 & Ho2 & Hrow & Hl & _ & Ha).
    unfold select_posts in Ho2. apply sort_by_In, in_flat_map in Ho2 as (r & _ & Hg).
    pose proof (post_group_row db _ r o2 Hg) as Hr.
    cbn [f p_likes_count p_comments_count p_author p_tags p_row set_comments_count].
    change (p_id (f o1)) with (p_id o1). split; [| split; [| split]].
    + rewrite Hl. unfold p_id. rewrite Hrow.
      now apply (post_group_popular_count db q1 r o2).
    + reflexivity.
    + rewrite Ha, Hrow, Hr. now apply (post_group_author db (PostQuerySet.popular q1) r o2).
    + exact Htags.
Qed.

Lemma popular_prefetch_fetch_chain_witness :
  let chain :=
    PostQuerySet.prefetch_with_tags_and_authors
      (PostQuerySet.popular (manager_query Post_objects)) in
  exists objs : list PostObj,
    PostQuerySet.fetch_with_comments_count sample_db [] (mkQS chain None)
    = ([] ++ objs, Return (mkQS chain (Some (seq (length (@nil PostObj)) (length objs)))))
    /\ Permutation (map p_row objs)
         (map p_row (run_posts sample_db
                       (PostQuerySet.prefetch_with_tags_and_authors
                          (manager_query Post_objects))))
    /\ descending likes_key objs
    /\ Forall (fun o =>
                 p_likes_count o = Some (number_of_likes sample_db (p_id o))
                 /\ p_comments_count o = Some (distinct_comments sample_db (p_id o))
                 /\ (exists u, p_author o = Some u /\ In u (users sample_db)
                               /\ user_id u = post_author_id (p_row o))
                 /\ (exists ts, p_tags o = Some ts
                                /\ forall tid, In (Some tid) (map t_id ts)
                                               <-> In (p_id o, tid) (post_tags sample_db)
                                                   /\ has_tag sample_db tid = true)) objs.
Proof.
  apply (popular_prefetch_fetch_chain sample_db [] (manager_query Post_objects)).
  - reflexivity.
  - reflexivity.
  - exact sample_post_tags_NoDup.
Defined.
